(** * A model of [basename_sorter.py] (create_and_move_files)

    The script lists a directory once, groups the non-hidden files by the
    root returned by [os.path.splitext], creates one folder per root when no
    entry of that name exists, and then moves every file into its folder with
    [shutil.move].  Every filesystem fault propagates out of the function.

    Filesystem.  Paths are lists of segments relative to the current working
    directory; [[]] is ['.'].  A filesystem maps a path to the kind of entry
    stored there.  Library calls that can raise ([os.listdir], [os.makedirs],
    [shutil.move]) return [errno + FS]; [os.path.exists] and
    [os.path.isdir] never raise. *)

From Stdlib Require Import List String Ascii ZArith Bool Lia.
From Stdlib Require Import Permutation FunctionalExtensionality.
Import ListNotations.
Open Scope string_scope.
Open Scope list_scope.

(** ** Filesystem *)

Inductive kind := File | Dir.

Definition path := list string.

Definition FS := path -> option kind.

Definition path_eqb (p q : path) : bool :=
  if list_eq_dec string_dec p q then true else false.

(** [p] is [a] or lies below [a]. *)
Fixpoint under (a p : path) : bool :=
  match a, p with
  | [], _ => true
  | x :: a', y :: p' => String.eqb x y && under a' p'
  | _ :: _, [] => false
  end.

(** The working directory always exists. *)
Definition lookup (fs : FS) (p : path) : option kind :=
  match p with
  | [] => Some Dir
  | _ => fs p
  end.

Definition upd (fs : FS) (p : path) (v : option kind) : FS :=
  fun q => if path_eqb q p then v else fs q.

(** os.path.exists / os.path.isdir *)
Definition path_exists (fs : FS) (p : path) : bool :=
  match lookup fs p with Some _ => true | None => false end.

Definition isdir (fs : FS) (p : path) : bool :=
  match lookup fs p with Some Dir => true | _ => false end.

(** os.path.basename of a path without trailing slash. *)
Definition basename (p : path) : string := last p "".

Inductive errno :=
  ENOENT | ENOTDIR | EISDIR | EEXIST | EINVAL | ENOTEMPTY | ShutilError.

(** ** System calls *)

(** os.mkdir *)
Definition mkdir (name : path) (fs : FS) : errno + FS :=
  match lookup fs (removelast name) with
  | None => inl ENOENT
  | Some File => inl ENOTDIR
  | Some Dir =>
      match lookup fs name with
      | Some _ => inl EEXIST
      | None => inr (upd fs name (Some Dir))
      end
  end.

(** os.makedirs(name, exist_ok):
<<
    head, tail = path.split(name)
    if head and tail and not path.exists(head):
        try: makedirs(head, exist_ok=exist_ok)
        except FileExistsError: pass
        if tail == curdir: return
    try: mkdir(name, mode)
    except OSError:
        if not exist_ok or not path.isdir(name): raise
>>
    The recursion is on the parent, one segment shorter; [n] bounds it. *)
Fixpoint makedirs_n (n : nat) (name : path) (exist_ok : bool) (fs : FS)
  : errno + FS :=
  let head := removelast name in
  let tail := basename name in
  let parent :=
    if path_exists fs head then inr fs
    else match n with
         | O => inr fs
         | S n' =>
             match makedirs_n n' head exist_ok fs with
             | inl EEXIST => inr fs
             | r => r
             end
         end in
  match parent with
  | inl e => inl e
  | inr fs1 =>
      if negb (path_exists fs head) && String.eqb tail "." then inr fs1
      else match mkdir name fs1 with
           | inr fs2 => inr fs2
           | inl e => if exist_ok && isdir fs1 name then inr fs1 else inl e
           end
  end.

Definition makedirs (name : path) (exist_ok : bool) (fs : FS) : errno + FS :=
  makedirs_n (List.length name) name exist_ok fs.

(** Directory trees: copy the tree at [src] to [dst], remove a tree. *)
Definition copytree_fs (src dst : path) (fs : FS) : FS :=
  fun p => if under dst p then fs (src ++ skipn (List.length dst) p) else fs p.

Definition rmtree_fs (src : path) (fs : FS) : FS :=
  fun p => if under src p then None else fs p.

(** os.rename (POSIX rename(2)).  Renaming a directory onto an existing
    directory is reported as [ENOTEMPTY]: [shutil.move] below never renames
    onto an existing directory other than the source itself. *)
Definition rename (src dst : path) (fs : FS) : errno + FS :=
  match lookup fs src with
  | None => inl ENOENT
  | Some File =>
      match lookup fs (removelast dst) with
      | None => inl ENOENT
      | Some File => inl ENOTDIR
      | Some Dir =>
          match lookup fs dst with
          | Some Dir => inl EISDIR
          | _ => inr (upd (upd fs src None) dst (Some File))
          end
      end
  | Some Dir =>
      if path_eqb src dst then inr fs
      else if under src dst then inl EINVAL
      else match lookup fs (removelast dst) with
           | None => inl ENOENT
           | Some File => inl ENOTDIR
           | Some Dir =>
               match lookup fs dst with
               | Some File => inl ENOTDIR
               | Some Dir => inl ENOTEMPTY
               | None => inr (rmtree_fs src (copytree_fs src dst fs))
               end
           end
  end.

(** shutil.copy2 on a regular file (contents and metadata are not modelled). *)
Definition copy2 (src dst : path) (fs : FS) : errno + FS :=
  if path_eqb src dst then inl ShutilError
  else match lookup fs src with
       | None => inl ENOENT
       | Some Dir => inl EISDIR
       | Some File =>
           match lookup fs (removelast dst) with
           | None => inl ENOENT
           | Some File => inl ENOTDIR
           | Some Dir =>
               match lookup fs dst with
               | Some Dir => inl EISDIR
               | _ => inr (upd fs dst (Some File))
               end
           end
       end.

(** os.unlink *)
Definition unlink (p : path) (fs : FS) : errno + FS :=
  match lookup fs p with
  | None => inl ENOENT
  | Some Dir => inl EISDIR
  | Some File => inr (upd fs p None)
  end.

(** The [try: os.rename(src, real_dst) except OSError:] part of
    shutil.move. *)
Definition move_to (src dst real_dst : path) (fs : FS) : errno + FS :=
  match rename src real_dst fs with
  | inr fs' => inr fs'
  | inl e =>
      match lookup fs src with
      | Some Dir =>
          if under src dst then inl ShutilError
          else match makedirs real_dst false fs with
               | inl e' => inl e'
               | inr fs1 => inr (rmtree_fs src (copytree_fs src real_dst fs1))
               end
      | _ =>
          match copy2 src real_dst fs with
          | inl e' => inl e'
          | inr fs1 => unlink src fs1
          end
      end
  end.

(** shutil.move(src, dst):
<<
    real_dst = dst
    if os.path.isdir(dst):
        if _samefile(src, dst):
            os.rename(src, dst); return
        real_dst = os.path.join(dst, _basename(src))
        if os.path.exists(real_dst):
            raise Error("Destination path ... already exists")
    try: os.rename(src, real_dst)
    except OSError: ...
>> *)
Definition shutil_move (src dst : path) (fs : FS) : errno + FS :=
  if isdir fs dst then
    if path_eqb src dst then rename src dst fs
    else
      let real_dst := dst ++ [basename src] in
      if path_exists fs real_dst then inl ShutilError
      else move_to src dst real_dst fs
  else move_to src dst dst fs.

(** ** os.path.splitext (posixpath, through genericpath._splitext)
<<
    sepIndex = p.rfind(sep)
    dotIndex = p.rfind(extsep)
    if dotIndex > sepIndex:
        filenameIndex = sepIndex + 1
        while filenameIndex < dotIndex:
            if p[filenameIndex:filenameIndex+1] != extsep:
                return p[:dotIndex], p[dotIndex:]
            filenameIndex += 1
    return p, p[:0]
>> *)

Definition sep : ascii := "/"%char.
Definition extsep : ascii := "."%char.

Fixpoint rfind_from (c : ascii) (s : string) (i : nat) (found : Z) : Z :=
  match s with
  | EmptyString => found
  | String a s' =>
      rfind_from c s' (S i) (if Ascii.eqb a c then Z.of_nat i else found)
  end.

(** str.rfind: the last index of [c], or -1. *)
Definition rfind (c : ascii) (s : string) : Z := rfind_from c s 0 (-1).

(** The while loop: from [i], look at [n] characters for one that is not
    [extsep]. *)
Fixpoint leading_dots_end (p : string) (i n : nat) : bool :=
  match n with
  | O => false
  | S n' =>
      match String.get i p with
      | Some ch => if Ascii.eqb ch extsep then leading_dots_end p (S i) n' else true
      | None => false
      end
  end.

Definition splitext (p : string) : string * string :=
  let sepIndex := rfind sep p in
  let dotIndex := rfind extsep p in
  if Z.ltb sepIndex dotIndex then
    let filenameIndex := Z.to_nat (sepIndex + 1) in
    let dot := Z.to_nat dotIndex in
    if leading_dots_end p filenameIndex (dot - filenameIndex)
    then (substring 0 dot p, substring dot (String.length p - dot) p)
    else (p, "")
  else (p, "").

(** item.startswith('.') *)
Definition startswith_dot (s : string) : bool :=
  match s with
  | String a _ => Ascii.eqb a extsep
  | EmptyString => false
  end.

(** ** The run: state, log and the fault monad *)

(** Filesystem calls as they are attempted. *)
Inductive call :=
| CListdir (d : path)
| CMakedirs (p : path)
| CMove (src dst : path).

(** The two print statements. *)
Inductive line :=
| Created (subdirectory : path)
| Moved (source_path destination_path : path).

Inductive event :=
| Call (c : call)
| Print (l : line).

(** An unrecovered exception: the call that raised it and its errno. *)
Inductive fault := Fault (c : call) (e : errno).

Record St := mkSt { fs : FS; log : list event }.

Definition M (A : Type) := St -> (A + fault) * St.

Definition ret {A} (a : A) : M A := fun s => (inl a, s).

Definition bind {A B} (m : M A) (k : A -> M B) : M B :=
  fun s => match m s with
           | (inl a, s') => k a s'
           | (inr f, s') => (inr f, s')
           end.

Notation "x <- m ;; k" := (bind m (fun x => k))
  (at level 61, m at next level, right associativity).
Notation "m ;; k" := (bind m (fun _ => k))
  (at level 61, right associativity).

(** Reading the filesystem without raising. *)
Definition query {A} (f : FS -> A) : M A := fun s => (inl (f (fs s)), s).

Definition print (l : line) : M unit :=
  fun s => (inl tt, mkSt (fs s) (log s ++ [Print l])).

(** A raising call: it is logged as attempted; on failure the exception
    carries it and the filesystem is left as the call found it. *)
Definition syscall (c : call) (f : FS -> errno + FS) : M unit :=
  fun s =>
    let l := log s ++ [Call c] in
    match f (fs s) with
    | inl e => (inr (Fault c e), mkSt (fs s) l)
    | inr fs' => (inl tt, mkSt fs' l)
    end.

(** os.listdir.  The order of the entries is the operating system's: it is
    the oracle [ls]. *)
Definition os_listdir (ls : path -> list string) (d : path) : M (list string) :=
  syscall (CListdir d)
    (fun fs => match lookup fs d with
               | Some Dir => inr fs
               | Some File => inl ENOTDIR
               | None => inl ENOENT
               end);;
  ret (ls d).

Definition os_makedirs (p : path) (exist_ok : bool) : M unit :=
  syscall (CMakedirs p) (makedirs p exist_ok).

Definition shutil_move_m (src dst : path) : M unit :=
  syscall (CMove src dst) (shutil_move src dst).

(** ** create_and_move_files *)

(** defaultdict(list), in key insertion order. *)
Definition file_map_t := list (string * list string).

Fixpoint fm_append (k : string) (v : string) (m : file_map_t) : file_map_t :=
  match m with
  | [] => [(k, [v])]
  | (k', vs) :: m' =>
      if String.eqb k k' then (k', vs ++ [v]) :: m'
      else (k', vs) :: fm_append k v m'
  end.

(** folders.add(item) *)
Definition set_add (x : string) (s : list string) : list string :=
  if existsb (String.eqb x) s then s else s ++ [x].

(** Step 1, one item of the loop.  The loop only reads the filesystem
    ([os.path.isdir]), so it is a function of the listing-time snapshot. *)
Definition scan_item (fs : FS) (directory : path)
    (acc : file_map_t * list string) (item : string) : file_map_t * list string :=
  let '(file_map, folders) := acc in
  let item_path := directory ++ [item] in
  if startswith_dot item then acc
  else if isdir fs item_path then (file_map, set_add item folders)
  else let base_name := fst (splitext item) in
       (fm_append base_name item file_map, folders).

Definition scan (fs : FS) (directory : path) (items : list string)
  : file_map_t * list string :=
  fold_left (scan_item fs directory) items ([], []).

(** Step 2 *)
Fixpoint ensure_folders (directory : path) (keys : list string) : M unit :=
  match keys with
  | [] => ret tt
  | base_name :: keys' =>
      let subdirectory := directory ++ [base_name] in
      ex <- query (fun fs => path_exists fs subdirectory);;
      (if negb ex then
         os_makedirs subdirectory true;;
         print (Created subdirectory)
       else ret tt);;
      ensure_folders directory keys'
  end.

(** Step 3 *)
Fixpoint move_files (directory target_folder : path) (files : list string)
  : M unit :=
  match files with
  | [] => ret tt
  | file_name :: files' =>
      let source_path := directory ++ [file_name] in
      let destination_path := target_folder ++ [file_name] in
      shutil_move_m source_path destination_path;;
      print (Moved source_path destination_path);;
      move_files directory target_folder files'
  end.

Fixpoint relocate (directory : path) (file_map : file_map_t) : M unit :=
  match file_map with
  | [] => ret tt
  | (base_name, files) :: rest =>
      let target_folder := directory ++ [base_name] in
      move_files directory target_folder files;;
      relocate directory rest
  end.

Definition create_and_move_files (ls : path -> list string) (directory : path)
  : M unit :=
  items <- os_listdir ls directory;;
  snapshot <- query (fun fs => fs);;
  let '(file_map, folders) := scan snapshot directory items in
  ensure_folders directory (map fst file_map);;
  relocate directory file_map.

(** [if __name__ == '__main__': create_and_move_files()]: the default
    argument ['.'] is [[]]; the command line is not read. *)
Definition main (ls : path -> list string) (argv : list string) : M unit :=
  create_and_move_files ls [].

(** A run from a filesystem with an empty log. *)
Definition run (ls : path -> list string) (directory : path) (fs0 : FS)
  : (unit + fault) * St :=
  create_and_move_files ls directory (mkSt fs0 []).

(** ** Specification helpers *)

Fixpoint contains (c : ascii) (s : string) : bool :=
  match s with
  | EmptyString => false
  | String a s' => Ascii.eqb a c || contains c s'
  end.

(** The root os.path.splitext gives, i.e. the [base_name] of Step 1. *)
Definition stem (s : string) : string := fst (splitext s).

(** ** Lemmas on splitext *)

Lemma rfind_from_app c s1 s2 i found :
  rfind_from c (s1 ++ s2)%string i found =
  rfind_from c s2 (i + String.length s1) (rfind_from c s1 i found).
Proof.
  revert i found; induction s1 as [|a s1 IH]; intros i found; simpl.
  - now rewrite Nat.add_0_r.
  - rewrite IH. f_equal. lia.
Qed.

Lemma rfind_from_absent c s i found :
  contains c s = false -> rfind_from c s i found = found.
Proof.
  revert i found; induction s as [|a s IH]; intros i found H; simpl in *; auto.
  apply orb_false_iff in H as [H1 H2]. rewrite H1. now apply IH.
Qed.

Lemma rfind_from_last c s i found :
  contains c s = false -> rfind_from c (String c s) i found = Z.of_nat i.
Proof.
  intros H. simpl. rewrite Ascii.eqb_refl. now apply rfind_from_absent.
Qed.

Lemma substring_prefix s1 s2 :
  substring 0 (String.length s1) (s1 ++ s2)%string = s1.
Proof.
  induction s1 as [|a s1 IH]; simpl.
  - now destruct s2.
  - now rewrite IH.
Qed.

Lemma string_length_app s1 s2 :
  String.length (s1 ++ s2)%string = String.length s1 + String.length s2.
Proof. induction s1; simpl; auto. Qed.

Lemma substring_suffix s1 s2 :
  substring (String.length s1) (String.length s2) (s1 ++ s2)%string = s2.
Proof.
  induction s1 as [|a s1 IH]; simpl; auto.
  induction s2 as [|b s2 IH2]; simpl; auto. now rewrite IH2.
Qed.

(** A non-hidden name [stem.ext] with no '/' and no '.' in [ext]: the root
    is [stem]. *)
Lemma splitext_last_dot stem0 ext :
  startswith_dot (stem0 ++ String "." ext)%string = false ->
  contains sep (stem0 ++ String "." ext)%string = false ->
  contains extsep ext = false ->
  splitext (stem0 ++ String "." ext)%string = (stem0, String "." ext).
Proof.
  intros Hhid Hsep Hext.
  unfold splitext, rfind.
  rewrite (rfind_from_absent sep _ 0 (-1) Hsep).
  rewrite rfind_from_app, (rfind_from_last extsep ext _ _ Hext).
  destruct stem0 as [|a s] eqn:E.
  { simpl in Hhid. discriminate. }
  rewrite <- E.
  assert (Hlen : String.length stem0 = S (String.length s)) by now subst.
  simpl Nat.add. rewrite Hlen.
  replace (Z.ltb (-1) (Z.of_nat (S (String.length s)))) with true
    by (symmetry; apply Z.ltb_lt; lia).
  replace (Z.to_nat (-1 + 1)) with 0%nat by reflexivity.
  rewrite Nat2Z.id, Nat.sub_0_r.
  assert (Hlead : leading_dots_end (stem0 ++ String "." ext) 0 (S (String.length s)) = true).
  { subst stem0. simpl in Hhid |- *. now rewrite Hhid. }
  rewrite Hlead, <- Hlen. f_equal.
  - apply substring_prefix.
  - rewrite string_length_app.
    replace (String.length stem0 + String.length (String "." ext) - String.length stem0)
      with (String.length (String "." ext)) by lia.
    apply substring_suffix.
Qed.

(** A name without '.' is its own root. *)
Lemma splitext_no_dot s :
  contains extsep s = false -> splitext s = (s, "").
Proof.
  intros H. unfold splitext, rfind.
  rewrite (rfind_from_absent extsep s 0 (-1) H).
  assert (Hs : (-1 <= rfind_from sep s 0 (-1))%Z).
  { assert (G : forall s i f, (-1 <= f)%Z -> (-1 <= rfind_from sep s i f)%Z).
    { induction s0 as [|a s0 IH]; intros i f Hf; simpl; auto.
      apply IH. destruct (Ascii.eqb a sep); lia. }
    apply G. lia. }
  replace (Z.ltb (rfind_from sep s 0 (-1)) (-1)) with false
    by (symmetry; apply Z.ltb_ge; lia).
  reflexivity.
Qed.

(** The root of a non-hidden name is non-hidden. *)
Lemma startswith_dot_stem s :
  startswith_dot (stem s) = startswith_dot s.
Proof.
  unfold stem, splitext.
  destruct (Z.ltb _ _); simpl; auto.
  destruct (leading_dots_end _ _ _) eqn:L; simpl; auto.
  destruct (Z.to_nat (rfind extsep s)) as [|k] eqn:K.
  - rewrite Nat.sub_0_l in L. discriminate.
  - destruct s; reflexivity.
Qed.

(** ** Paths *)

Lemma path_eqb_eq p q : path_eqb p q = true <-> p = q.
Proof. unfold path_eqb. destruct (list_eq_dec string_dec p q); split; congruence. Qed.

Lemma path_eqb_refl p : path_eqb p p = true.
Proof. now apply path_eqb_eq. Qed.

Lemma path_eqb_neq p q : p <> q -> path_eqb p q = false.
Proof. intros H. destruct (path_eqb p q) eqn:E; auto. now apply path_eqb_eq in E. Qed.

Lemma lookup_child fs0 d x l : lookup fs0 (d ++ x :: l) = fs0 (d ++ x :: l).
Proof. now destruct d. Qed.

Lemma app_cons_inj (d : path) x l y l' : d ++ x :: l = d ++ y :: l' -> x = y /\ l = l'.
Proof. intros H. apply app_inv_head in H. now inversion H. Qed.

Lemma app_cons_len (d : path) l l' : d ++ l = d ++ l' -> List.length l = List.length l'.
Proof. intros H. apply app_inv_head in H. now subst. Qed.

Lemma app_cons_neq (d : path) x l : d <> d ++ x :: l.
Proof.
  intros E. apply (f_equal (@List.length _)) in E.
  rewrite length_app in E. simpl in E. lia.
Qed.

Lemma under_app (d a p : path) : under (d ++ a) (d ++ p) = under a p.
Proof. induction d; simpl; auto. now rewrite String.eqb_refl. Qed.

Lemma under_child (d : path) h x l : under (d ++ [h]) (d ++ x :: l) = String.eqb h x.
Proof. rewrite under_app. simpl. now rewrite andb_true_r. Qed.

Lemma under_self_app (d p : path) : under d (d ++ p) = true.
Proof. induction d; simpl; auto. now rewrite String.eqb_refl. Qed.

Lemma basename_child (d : path) f : basename (d ++ [f]) = f.
Proof. unfold basename. apply last_last. Qed.

Lemma removelast_child (d : path) x : removelast (d ++ [x]) = d.
Proof. apply removelast_last. Qed.

(** ** The monad *)

Lemma bind_inl {A B} (m : M A) (k : A -> M B) s a s' :
  m s = (inl a, s') -> bind m k s = k a s'.
Proof. intros H. unfold bind. now rewrite H. Qed.

Lemma bind_inr {A B} (m : M A) (k : A -> M B) s f s' :
  m s = (inr f, s') -> bind m k s = (inr f, s').
Proof. intros H. unfold bind. now rewrite H. Qed.

Lemma bind_assoc {A B C} (m : M A) (k1 : A -> M B) (k2 : B -> M C) s :
  bind (bind m k1) k2 s = bind m (fun a => bind (k1 a) k2) s.
Proof. unfold bind. destruct (m s) as [[a|f] s']; reflexivity. Qed.

Lemma bind_ret {A B} (a : A) (k : A -> M B) s : bind (ret a) k s = k a s.
Proof. reflexivity. Qed.

(** ** Step 2: folder creation *)

(** The filesystem after Step 2: every key without an entry becomes a
    directory. *)
Definition created (fs0 : FS) (d : path) (keys : list string) : FS :=
  fun p => match fs0 p with
           | Some k => Some k
           | None => if existsb (fun b => path_eqb p (d ++ [b])) keys
                     then Some Dir else None
           end.

Definition elog (fs0 : FS) (d : path) (keys : list string) : list event :=
  flat_map (fun b => if path_exists fs0 (d ++ [b]) then []
                     else [Call (CMakedirs (d ++ [b])); Print (Created (d ++ [b]))])
           keys.

Lemma makedirs_child fs0 d b exist_ok :
  lookup fs0 d = Some Dir -> fs0 (d ++ [b]) = None ->
  makedirs (d ++ [b]) exist_ok fs0 = inr (upd fs0 (d ++ [b]) (Some Dir)).
Proof.
  intros Hd Hb. unfold makedirs.
  assert (He : path_exists fs0 d = true) by (unfold path_exists; now rewrite Hd).
  destruct (List.length (d ++ [b])); simpl;
    rewrite removelast_child, He; simpl;
    unfold mkdir; rewrite removelast_child, Hd, lookup_child, Hb; reflexivity.
Qed.

Lemma elog_upd_other fs0 d b v keys :
  ~ In b keys -> elog (upd fs0 (d ++ [b]) v) d keys = elog fs0 d keys.
Proof.
  intros Hn. unfold elog. induction keys as [|b' keys IH]; simpl; auto.
  rewrite IH by (intros H; apply Hn; now right).
  f_equal. unfold path_exists, upd. rewrite !lookup_child.
  rewrite path_eqb_neq; auto.
  intros E. apply app_cons_inj in E as [E _]. apply Hn. left. auto.
Qed.

Lemma ensure_folders_ok fs0 d keys l :
  lookup fs0 d = Some Dir -> NoDup keys ->
  ensure_folders d keys (mkSt fs0 l) =
  (inl tt, mkSt (created fs0 d keys) (l ++ elog fs0 d keys)).
Proof.
  revert fs0 l; induction keys as [|b keys IH]; intros fs0 l Hd Hnd.
  - simpl. unfold ret. rewrite app_nil_r. f_equal. f_equal.
    extensionality p. unfold created. now destruct (fs0 p).
  - inversion Hnd as [|? ? Hnin Hnd']; subst.
    simpl ensure_folders. unfold bind at 1, query. cbn [fs log].
    unfold path_exists at 1. rewrite lookup_child.
    destruct (fs0 (d ++ [b])) as [k|] eqn:Hb.
    + simpl negb. cbv iota. rewrite bind_ret, IH by auto.
      f_equal. f_equal.
      * extensionality p. unfold created. simpl.
        destruct (fs0 p) eqn:Hp; auto.
        destruct (path_eqb p (d ++ [b])) eqn:E; simpl; auto.
        apply path_eqb_eq in E. subst. congruence.
      * unfold elog. simpl. unfold path_exists. rewrite lookup_child, Hb. reflexivity.
    + simpl negb. cbv iota. unfold os_makedirs.
      rewrite bind_assoc. unfold bind at 1, syscall at 1. cbn [fs log].
      rewrite makedirs_child by auto.
      unfold bind at 1, print. cbn [fs log].
      rewrite IH.
      * f_equal. f_equal.
        -- extensionality p. unfold created, upd. simpl.
           destruct (path_eqb p (d ++ [b])) eqn:E.
           ++ apply path_eqb_eq in E. subst. now rewrite Hb.
           ++ reflexivity.
        -- unfold elog at 2. simpl. unfold path_exists at 1. rewrite lookup_child, Hb.
           rewrite <- !app_assoc. simpl. f_equal. f_equal. f_equal.
           now apply elog_upd_other.
      * unfold upd. destruct d; simpl; auto.
        rewrite path_eqb_neq; auto. apply (app_cons_neq (s :: d) b []).
      * auto.
Qed.

(** ** Step 1: the grouping *)

(** An item Step 1 records as a file. *)
Definition is_file_item (fs0 : FS) (d : path) (x : string) : bool :=
  negb (startswith_dot x) && negb (isdir fs0 (d ++ [x])).

(** The moves of Step 3, in order: (base_name, file_name). *)
Definition pairs (fm : file_map_t) : list (string * string) :=
  flat_map (fun '(b, fl) => map (fun f => (b, f)) fl) fm.

Definition fm_wf (fm : file_map_t) : Prop :=
  NoDup (map fst fm) /\ forall b fl, In (b, fl) fm -> fl <> [].

Lemma pairs_fm_append k v fm :
  Permutation (pairs (fm_append k v fm)) (pairs fm ++ [(k, v)]).
Proof.
  induction fm as [|[k' vs] fm IH]; simpl; auto.
  destruct (String.eqb k k') eqn:E; simpl.
  - apply String.eqb_eq in E. subst.
    rewrite map_app, <- !app_assoc. apply Permutation_app_head.
    simpl. apply Permutation_cons_append.
  - rewrite <- app_assoc. now apply Permutation_app_head.
Qed.

Lemma keys_fm_append k v fm b :
  In b (map fst (fm_append k v fm)) <-> b = k \/ In b (map fst fm).
Proof.
  induction fm as [|[k' vs] fm IH]; simpl.
  - firstorder congruence.
  - destruct (String.eqb k k') eqn:E; simpl.
    + apply String.eqb_eq in E. subst. firstorder congruence.
    + rewrite IH. firstorder congruence.
Qed.

Lemma fm_wf_append k v fm : fm_wf fm -> fm_wf (fm_append k v fm).
Proof.
  intros [Hnd Hne]. split.
  - induction fm as [|[k' vs] fm IH]; simpl; [constructor; auto; constructor|].
    inversion Hnd as [|? ? Hn Hnd']; subst.
    destruct (String.eqb k k') eqn:E; simpl; constructor; auto.
    + rewrite keys_fm_append. intros [->|H]; [|tauto].
      rewrite String.eqb_refl in E. discriminate.
    + apply IH; auto. intros b fl Hin. apply (Hne b fl). now right.
  - induction fm as [|[k' vs] fm IH]; simpl.
    + intros b fl [H|[]]. inversion H. discriminate.
    + destruct (String.eqb k k'); simpl.
      * intros b fl [H|H].
        -- inversion H. destruct vs; discriminate.
        -- apply (Hne b fl). now right.
      * intros b fl [H|H].
        -- apply (Hne b fl). now left.
        -- inversion Hnd; subst. apply IH in H; auto.
           intros b' fl' Hin. apply (Hne b' fl'). now right.
Qed.

Lemma in_keys_pairs fm b :
  fm_wf fm -> (In b (map fst fm) <-> exists f, In (b, f) (pairs fm)).
Proof.
  intros [_ Hne]. unfold pairs. split.
  - intros Hb. apply in_map_iff in Hb as [[b' fl] [Heq Hin]]. simpl in Heq. subst.
    destruct fl as [|f fl'].
    + exfalso. now apply (Hne b [] Hin).
    + exists f. apply in_flat_map. exists (b, f :: fl'). split; auto. now left.
  - intros [f Hf]. apply in_flat_map in Hf as [[b' fl] [Hin Hf]].
    apply in_map_iff in Hf as [f' [Heq _]]. inversion Heq; subst.
    apply in_map_iff. exists (b, fl). auto.
Qed.

Lemma scan_fold_pairs fs0 d items acc :
  Permutation (pairs (fst (fold_left (scan_item fs0 d) items acc)))
    (pairs (fst acc) ++
     map (fun f => (stem f, f)) (filter (is_file_item fs0 d) items)).
Proof.
  revert acc; induction items as [|x items IH]; intros [fm fo]; simpl.
  - now rewrite app_nil_r.
  - rewrite IH. unfold is_file_item at 2.
    destruct (startswith_dot x); simpl; [reflexivity|].
    destruct (isdir fs0 (d ++ [x])); simpl; [reflexivity|].
    rewrite pairs_fm_append, <- app_assoc. reflexivity.
Qed.

Lemma scan_fold_wf fs0 d items acc :
  fm_wf (fst acc) -> fm_wf (fst (fold_left (scan_item fs0 d) items acc)).
Proof.
  revert acc; induction items as [|x items IH]; intros [fm fo] H; simpl; auto.
  apply IH. simpl.
  destruct (startswith_dot x); simpl; auto.
  destruct (isdir fs0 (d ++ [x])); simpl; auto.
  now apply fm_wf_append.
Qed.

Lemma scan_fold_folders fs0 d items acc x :
  In x (snd (fold_left (scan_item fs0 d) items acc)) ->
  In x (snd acc) \/
  (In x items /\ startswith_dot x = false /\ isdir fs0 (d ++ [x]) = true).
Proof.
  revert acc; induction items as [|y items IH]; intros [fm fo] H; simpl in *; auto.
  apply IH in H. simpl in H.
  destruct (startswith_dot y) eqn:Hy; simpl in H; [tauto|].
  destruct (isdir fs0 (d ++ [y])) eqn:Hd; simpl in H; [|tauto].
  destruct H as [H|H]; [|tauto].
  unfold set_add in H. destruct (existsb _ fo); [tauto|].
  apply in_app_or in H as [H|[H|[]]]; [tauto|subst; tauto].
Qed.

Lemma scan_wf fs0 d items : fm_wf (fst (scan fs0 d items)).
Proof.
  apply scan_fold_wf. split; simpl; [constructor | tauto].
Qed.

Lemma scan_pairs fs0 d items :
  Permutation (pairs (fst (scan fs0 d items)))
    (map (fun f => (stem f, f)) (filter (is_file_item fs0 d) items)).
Proof. apply scan_fold_pairs. Qed.

Lemma in_scan_pairs fs0 d items b f :
  In (b, f) (pairs (fst (scan fs0 d items))) <->
  In f items /\ is_file_item fs0 d f = true /\ b = stem f.
Proof.
  split.
  - intros H. eapply Permutation_in in H; [|apply scan_pairs].
    apply in_map_iff in H as [f' [Heq Hin]]. inversion Heq; subst.
    apply filter_In in Hin. tauto.
  - intros (Hin & Hf & ->). eapply Permutation_in; [symmetry; apply scan_pairs|].
    apply in_map_iff. exists f. split; auto. now apply filter_In.
Qed.

Lemma in_scan_keys fs0 d items b :
  In b (map fst (fst (scan fs0 d items))) <->
  exists f, In f items /\ is_file_item fs0 d f = true /\ b = stem f.
Proof.
  rewrite in_keys_pairs by apply scan_wf.
  split; intros [f Hf]; exists f; now apply in_scan_pairs.
Qed.

Lemma scan_folders fs0 d items x :
  In x (snd (scan fs0 d items)) ->
  In x items /\ startswith_dot x = false /\ isdir fs0 (d ++ [x]) = true.
Proof.
  intros H. apply scan_fold_folders in H as [[]|H]. exact H.
Qed.

Lemma scan_no_files fs0 d items :
  (forall x, In x items -> is_file_item fs0 d x = false) ->
  fst (scan fs0 d items) = [].
Proof.
  intros H.
  assert (Hp : pairs (fst (scan fs0 d items)) = []).
  { apply Permutation_nil. symmetry.
    rewrite scan_pairs.
    replace (filter (is_file_item fs0 d) items) with (@nil string); [constructor|].
    symmetry. induction items as [|x items IH]; simpl; auto.
    rewrite H by (now left). apply IH. intros y Hy. apply H. now right. }
  destruct (scan_wf fs0 d items) as [_ Hne].
  revert Hp Hne. generalize (fst (scan fs0 d items)). intros fm Hp Hne.
  destruct fm as [|[b fl] fm]; auto.
  exfalso. destruct fl as [|f fl].
  - apply (Hne b []); simpl; auto.
  - discriminate Hp.
Qed.

(** ** Step 3: the moves as one loop over [pairs] *)

Fixpoint move_pairs (d : path) (P : list (string * string)) : M unit :=
  match P with
  | [] => ret tt
  | (b, f) :: P' =>
      shutil_move_m (d ++ [f]) (d ++ [b; f]);;
      print (Moved (d ++ [f]) (d ++ [b; f]));;
      move_pairs d P'
  end.

Lemma bind_ext {A B} (m : M A) (k k' : A -> M B) s :
  (forall a s', k a s' = k' a s') -> bind m k s = bind m k' s.
Proof. intros H. unfold bind. destruct (m s) as [[a|e] s']; auto. Qed.

Lemma move_files_pairs d b fl s :
  move_files d (d ++ [b]) fl s = move_pairs d (map (fun f => (b, f)) fl) s.
Proof.
  revert s; induction fl as [|f fl IH]; intros s; simpl; auto.
  rewrite <- app_assoc. simpl.
  apply bind_ext. intros [] s'. apply bind_ext. intros [] s''. apply IH.
Qed.

Lemma move_pairs_app d P1 P2 s :
  bind (move_pairs d P1) (fun _ => move_pairs d P2) s = move_pairs d (P1 ++ P2) s.
Proof.
  revert s; induction P1 as [|[b f] P1 IH]; intros s; simpl; auto.
  rewrite bind_assoc. apply bind_ext. intros [] s'.
  rewrite bind_assoc. apply bind_ext. intros [] s''. apply IH.
Qed.

Lemma relocate_pairs d fm s : relocate d fm s = move_pairs d (pairs fm) s.
Proof.
  revert s; induction fm as [|[b fl] fm IH]; intros s; simpl; auto.
  rewrite <- move_pairs_app.
  transitivity (bind (move_pairs d (map (fun f => (b, f)) fl)) (fun _ => relocate d fm) s).
  - unfold bind. now rewrite move_files_pairs.
  - apply bind_ext. intros [] s'. apply IH.
Qed.

(** Where shutil.move puts [file_name]: inside [base_name/file_name] when
    that is a directory. *)
Definition real_dst (fs2 : FS) (d : path) (b f : string) : path :=
  if isdir fs2 (d ++ [b; f]) then (d ++ [b; f]) ++ [f] else d ++ [b; f].

(** The filesystem after the moves [mv], from the filesystem [fs2] left by
    Step 2. *)
Definition moved_fs (fs2 : FS) (d : path) (mv : list (string * string)) : FS :=
  fun p =>
    if existsb (fun '(b, f) => path_eqb p (d ++ [f])) mv then None
    else if existsb (fun '(b, f) => path_eqb p (real_dst fs2 d b f)) mv
    then Some File
    else fs2 p.

Definition mlog (d : path) (mv : list (string * string)) : list event :=
  flat_map (fun '(b, f) => [Call (CMove (d ++ [f]) (d ++ [b; f]));
                           Print (Moved (d ++ [f]) (d ++ [b; f]))]) mv.

Lemma real_dst_cases fs2 d b f :
  real_dst fs2 d b f = d ++ [b; f] \/ real_dst fs2 d b f = d ++ [b; f; f].
Proof.
  unfold real_dst. destruct (isdir _ _); [right|left]; auto.
  now rewrite <- app_assoc.
Qed.

Ltac path_neq :=
  let E := fresh "E" in
  intros E;
  first [ apply app_cons_len in E; simpl in E; discriminate
        | apply app_inv_head in E; inversion E; subst; congruence ].

Lemma child_neq_real fs2 d x b f : d ++ [x] <> real_dst fs2 d b f.
Proof. destruct (real_dst_cases fs2 d b f) as [-> | ->]; path_neq. Qed.

Lemma parent_neq_real fs2 d b' b f : d ++ [b'] <> real_dst fs2 d b f.
Proof. apply child_neq_real. Qed.

Lemma pair_neq_real fs2 d b f b' f' : f <> f' -> d ++ [b; f] <> real_dst fs2 d b' f'.
Proof. intros H. destruct (real_dst_cases fs2 d b' f') as [-> | ->]; path_neq. Qed.

Lemma triple_neq_real fs2 d b f b' f' :
  f <> f' -> (d ++ [b; f]) ++ [f] <> real_dst fs2 d b' f'.
Proof.
  intros H. rewrite <- app_assoc. simpl.
  destruct (real_dst_cases fs2 d b' f') as [-> | ->]; path_neq.
Qed.

Lemma real_dst_inj fs2 d b f b' f' :
  real_dst fs2 d b f = real_dst fs2 d b' f' -> f = f'.
Proof.
  destruct (real_dst_cases fs2 d b f) as [-> | ->];
  destruct (real_dst_cases fs2 d b' f') as [-> | ->];
  intros E; try (apply app_cons_len in E; discriminate);
  apply app_inv_head in E; now inversion E.
Qed.

Lemma existsb_none {A} (g : A -> bool) l :
  (forall x, In x l -> g x = false) -> existsb g l = false.
Proof.
  induction l as [|x l IH]; intros H; simpl; auto.
  rewrite H by (now left). apply IH. intros y Hy. apply H. now right.
Qed.

Lemma moved_fs_nil fs2 d : moved_fs fs2 d [] = fs2.
Proof. reflexivity. Qed.

Lemma moved_fs_frame fs2 d mv p :
  (forall b f, In (b, f) mv -> p <> d ++ [f] /\ p <> real_dst fs2 d b f) ->
  moved_fs fs2 d mv p = fs2 p.
Proof.
  intros H. unfold moved_fs.
  rewrite !existsb_none; auto; intros [b f] Hin; apply path_eqb_neq; apply (H b f Hin).
Qed.

Lemma moved_fs_src fs2 d mv b f :
  In (b, f) mv -> moved_fs fs2 d mv (d ++ [f]) = None.
Proof.
  intros H. unfold moved_fs.
  replace (existsb _ mv) with true; auto. symmetry.
  apply existsb_exists. exists (b, f). split; auto. apply path_eqb_refl.
Qed.

Lemma moved_fs_dst fs2 d mv b f :
  In (b, f) mv -> moved_fs fs2 d mv (real_dst fs2 d b f) = Some File.
Proof.
  intros H. unfold moved_fs.
  rewrite existsb_none.
  - replace (existsb _ mv) with true; auto. symmetry.
    apply existsb_exists. exists (b, f). split; auto. apply path_eqb_refl.
  - intros [b' f'] _. apply path_eqb_neq. intros E. symmetry in E.
    revert E. apply child_neq_real.
Qed.

Lemma moved_fs_snoc fs2 d mv b f :
  upd (upd (moved_fs fs2 d mv) (d ++ [f]) None) (real_dst fs2 d b f) (Some File) =
  moved_fs fs2 d (mv ++ [(b, f)]).
Proof.
  extensionality p. unfold upd, moved_fs. rewrite !existsb_app. simpl.
  destruct (path_eqb p (real_dst fs2 d b f)) eqn:E1.
  - apply path_eqb_eq in E1. subst p.
    rewrite (existsb_none _ mv).
    + rewrite path_eqb_neq by (intros E; symmetry in E; revert E; apply child_neq_real).
      now rewrite orb_true_r.
    + intros [b' f'] _. apply path_eqb_neq. intros E. symmetry in E.
      revert E. apply child_neq_real.
  - rewrite !orb_false_r.
    destruct (path_eqb p (d ++ [f])) eqn:E2; rewrite ?orb_true_r, ?orb_false_r; auto.
Qed.

Lemma removelast_child2 (d : path) b f : removelast (d ++ [b; f]) = d ++ [b].
Proof.
  replace (d ++ [b; f]) with ((d ++ [b]) ++ [f]) by now rewrite <- app_assoc.
  apply removelast_last.
Qed.

Lemma not_in_snd (mv : list (string * string)) b' f f' :
  ~ In f (map snd mv) -> In (b', f') mv -> f <> f'.
Proof.
  intros Hn Hin ->. apply Hn. apply in_map_iff. now exists (b', f').
Qed.

(** One move of Step 3 on the filesystem reached so far. *)
Lemma shutil_move_step fs2 d mv b f :
  ~ In f (map snd mv) -> fs2 (d ++ [f]) = Some File ->
  shutil_move (d ++ [f]) (d ++ [b; f]) (moved_fs fs2 d mv) =
  if isdir fs2 (d ++ [b; f]) then
    if path_exists fs2 ((d ++ [b; f]) ++ [f]) then inl ShutilError
    else inr (moved_fs fs2 d (mv ++ [(b, f)]))
  else match lookup (moved_fs fs2 d mv) (d ++ [b]) with
       | Some Dir => inr (moved_fs fs2 d (mv ++ [(b, f)]))
       | Some File => inl ENOTDIR
       | None => inl ENOENT
       end.
Proof.
  intros Hn Hf.
  assert (F1 : moved_fs fs2 d mv (d ++ [b; f]) = fs2 (d ++ [b; f])).
  { apply moved_fs_frame. intros b' f' Hin. pose proof (not_in_snd _ _ _ _ Hn Hin).
    split; [path_neq | now apply pair_neq_real]. }
  assert (F2 : moved_fs fs2 d mv ((d ++ [b; f]) ++ [f]) = fs2 ((d ++ [b; f]) ++ [f])).
  { apply moved_fs_frame. intros b' f' Hin. pose proof (not_in_snd _ _ _ _ Hn Hin).
    split; [rewrite <- app_assoc; path_neq | now apply triple_neq_real]. }
  assert (F3 : moved_fs fs2 d mv (d ++ [f]) = Some File).
  { rewrite <- Hf. apply moved_fs_frame. intros b' f' Hin.
    pose proof (not_in_snd _ _ _ _ Hn Hin).
    split; [path_neq | apply child_neq_real]. }
  assert (Hsnoc := moved_fs_snoc fs2 d mv b f).
  unfold shutil_move.
  assert (Hd : isdir (moved_fs fs2 d mv) (d ++ [b; f]) = isdir fs2 (d ++ [b; f]))
    by (unfold isdir; now rewrite !lookup_child, F1).
  rewrite Hd, (path_eqb_neq (d ++ [f]) (d ++ [b; f])) by path_neq.
  rewrite basename_child.
  unfold real_dst in Hsnoc.
  destruct (isdir fs2 (d ++ [b; f])) eqn:Hdir.
  - assert (He : path_exists (moved_fs fs2 d mv) ((d ++ [b; f]) ++ [f]) =
                 path_exists fs2 ((d ++ [b; f]) ++ [f]))
      by (unfold path_exists; now rewrite !lookup_child, F2).
    rewrite He.
    destruct (path_exists fs2 ((d ++ [b; f]) ++ [f])) eqn:Hex; auto.
    unfold move_to, rename.
    rewrite lookup_child, F3, removelast_child, !lookup_child, F1, F2.
    unfold isdir in Hdir. rewrite lookup_child in Hdir.
    unfold path_exists in Hex. rewrite lookup_child in Hex.
    destruct (fs2 (d ++ [b; f])) as [[|]|]; try discriminate.
    destruct (fs2 ((d ++ [b; f]) ++ [f])); try discriminate.
    now rewrite Hsnoc.
  - unfold move_to, rename, copy2.
    rewrite (path_eqb_neq (d ++ [f]) (d ++ [b; f])) by path_neq.
    rewrite !removelast_child2, !lookup_child, F3, F1.
    unfold isdir in Hdir. rewrite lookup_child in Hdir.
    destruct (moved_fs fs2 d mv (d ++ [b])) as [[|]|]; auto.
    destruct (fs2 (d ++ [b; f])) as [[|]|]; try discriminate; now rewrite Hsnoc.
Qed.

Lemma shutil_move_step_cases fs2 d mv b f :
  ~ In f (map snd mv) -> fs2 (d ++ [f]) = Some File ->
  shutil_move (d ++ [f]) (d ++ [b; f]) (moved_fs fs2 d mv) =
    inr (moved_fs fs2 d (mv ++ [(b, f)])) \/
  exists e, shutil_move (d ++ [f]) (d ++ [b; f]) (moved_fs fs2 d mv) = inl e.
Proof.
  intros Hn Hf. rewrite shutil_move_step by auto.
  destruct (isdir _ _); [destruct (path_exists _ _)|destruct (lookup _ _) as [[|]|]];
    eauto.
Qed.

Lemma nodup_snd_head (mv P : list (string * string)) b f :
  NoDup (map snd (mv ++ (b, f) :: P)) -> ~ In f (map snd mv).
Proof.
  rewrite map_app. simpl. intros H Hin.
  apply NoDup_remove_2 in H. apply H. apply in_or_app. now left.
Qed.

(** The move loop either completes, or stops at the first failing move
    with the state the earlier moves left. *)
Lemma move_pairs_spec fs2 d P mv l :
  NoDup (map snd (mv ++ P)) ->
  (forall b f, In (b, f) P -> fs2 (d ++ [f]) = Some File) ->
  move_pairs d P (mkSt (moved_fs fs2 d mv) l) =
    (inl tt, mkSt (moved_fs fs2 d (mv ++ P)) (l ++ mlog d P))
  \/ exists P1 b f P2 e, P = P1 ++ (b, f) :: P2 /\
     move_pairs d P (mkSt (moved_fs fs2 d mv) l) =
     (inr (Fault (CMove (d ++ [f]) (d ++ [b; f])) e),
      mkSt (moved_fs fs2 d (mv ++ P1))
           (l ++ mlog d P1 ++ [Call (CMove (d ++ [f]) (d ++ [b; f]))])).
Proof.
  revert mv l; induction P as [|[b f] P IH]; intros mv l Hnd Hfile.
  - left. simpl. now rewrite !app_nil_r.
  - assert (Hn := nodup_snd_head _ _ _ _ Hnd).
    assert (Hf : fs2 (d ++ [f]) = Some File) by (apply (Hfile b); now left).
    destruct (shutil_move_step_cases fs2 d mv b f Hn Hf) as [Hok | [e He]].
    + assert (Hstep : move_pairs d ((b, f) :: P) (mkSt (moved_fs fs2 d mv) l) =
                      move_pairs d P (mkSt (moved_fs fs2 d (mv ++ [(b, f)]))
                        ((l ++ [Call (CMove (d ++ [f]) (d ++ [b; f]))]) ++
                         [Print (Moved (d ++ [f]) (d ++ [b; f]))]))).
      { simpl move_pairs. unfold shutil_move_m, bind at 1, syscall at 1. cbn [fs log].
        now rewrite Hok. }
      rewrite Hstep.
      assert (Hnd' : NoDup (map snd ((mv ++ [(b, f)]) ++ P)))
        by now rewrite <- app_assoc.
      assert (Hfile' : forall b' f', In (b', f') P -> fs2 (d ++ [f']) = Some File)
        by (intros b' f' Hin; apply (Hfile b'); now right).
      destruct (IH (mv ++ [(b, f)]) ((l ++ [Call (CMove (d ++ [f]) (d ++ [b; f]))]) ++
                  [Print (Moved (d ++ [f]) (d ++ [b; f]))]) Hnd' Hfile')
        as [H | (P1 & b' & f' & P2 & e & HP & H)].
      * left. rewrite H. rewrite <- app_assoc. simpl. now rewrite <- !app_assoc.
      * right. exists ((b, f) :: P1), b', f', P2, e. split; [now rewrite HP|].
        rewrite H. rewrite <- app_assoc. simpl. now rewrite <- !app_assoc.
    + right. exists [], b, f, P, e. split; auto.
      simpl move_pairs. unfold shutil_move_m, bind at 1, syscall at 1. cbn [fs log].
      rewrite He. simpl. now rewrite !app_nil_r.
Qed.

Lemma move_pairs_ok fs2 d P mv l :
  NoDup (map snd (mv ++ P)) ->
  (forall b f, In (b, f) (mv ++ P) -> fs2 (d ++ [f]) = Some File) ->
  (forall b f, In (b, f) P ->
     fs2 (d ++ [b]) = Some Dir /\
     (isdir fs2 (d ++ [b; f]) = true -> fs2 ((d ++ [b; f]) ++ [f]) = None)) ->
  move_pairs d P (mkSt (moved_fs fs2 d mv) l) =
    (inl tt, mkSt (moved_fs fs2 d (mv ++ P)) (l ++ mlog d P)).
Proof.
  revert mv l; induction P as [|[b f] P IH]; intros mv l Hnd Hfile Hgood.
  - simpl. now rewrite !app_nil_r.
  - simpl move_pairs. unfold shutil_move_m. unfold bind at 1, syscall at 1. cbn [fs log].
    assert (Hn := nodup_snd_head _ _ _ _ Hnd).
    assert (Hf : fs2 (d ++ [f]) = Some File)
      by (apply (Hfile b); apply in_or_app; right; now left).
    destruct (Hgood b f) as [Hb Hdd]; [now left|].
    rewrite shutil_move_step by auto.
    assert (Hok : (if isdir fs2 (d ++ [b; f]) then
                     if path_exists fs2 ((d ++ [b; f]) ++ [f]) then inl ShutilError
                     else inr (moved_fs fs2 d (mv ++ [(b, f)]))
                   else match lookup (moved_fs fs2 d mv) (d ++ [b]) with
                        | Some Dir => inr (moved_fs fs2 d (mv ++ [(b, f)]))
                        | Some File => inl ENOTDIR
                        | None => inl ENOENT
                        end) = inr (moved_fs fs2 d (mv ++ [(b, f)]))).
    { destruct (isdir fs2 (d ++ [b; f])) eqn:Hdir.
      - unfold path_exists. rewrite lookup_child, Hdd; auto.
      - rewrite lookup_child, moved_fs_frame, Hb; auto.
        intros b' f' Hin. split; [|apply parent_neq_real].
        intros E. apply app_cons_inj in E as [-> _].
        rewrite (Hfile b' f') in Hb; [discriminate|]. apply in_or_app. now left. }
    rewrite Hok. unfold bind at 1, print. cbn [fs log].
    rewrite IH.
    + rewrite <- app_assoc. simpl. now rewrite <- !app_assoc.
    + now rewrite <- app_assoc.
    + intros b' f' Hin. apply (Hfile b'). rewrite <- app_assoc in Hin. exact Hin.
    + intros b' f' Hin. apply Hgood. now right.
Qed.

(** ** The whole run *)

(** [ls d] is a listing of [d]: every entry once, in some order. *)
Definition listing_ok (fs0 : FS) (d : path) (ls : path -> list string) : Prop :=
  NoDup (ls d) /\ forall x, In x (ls d) <-> fs0 (d ++ [x]) <> None.

Definition fm_of (fs0 : FS) (d : path) (ls : path -> list string) : file_map_t :=
  fst (scan fs0 d (ls d)).

Definition fs2_of (fs0 : FS) (d : path) (ls : path -> list string) : FS :=
  created fs0 d (map fst (fm_of fs0 d ls)).

Definition pairs_of (fs0 : FS) (d : path) (ls : path -> list string) :=
  pairs (fm_of fs0 d ls).

(** The log up to the end of Step 2. *)
Definition log2_of (fs0 : FS) (d : path) (ls : path -> list string) : list event :=
  [Call (CListdir d)] ++ elog fs0 d (map fst (fm_of fs0 d ls)).

Lemma file_item_file fs0 d ls f :
  listing_ok fs0 d ls -> In f (ls d) -> is_file_item fs0 d f = true ->
  fs0 (d ++ [f]) = Some File.
Proof.
  intros [_ Hls] Hin Hfi.
  apply Hls in Hin. unfold is_file_item, isdir in Hfi.
  rewrite lookup_child in Hfi.
  destruct (fs0 (d ++ [f])) as [[|]|]; auto.
  - rewrite andb_false_r in Hfi. discriminate.
  - congruence.
Qed.

Lemma in_pairs_of fs0 d ls b f :
  In (b, f) (pairs_of fs0 d ls) <->
  In f (ls d) /\ is_file_item fs0 d f = true /\ b = stem f.
Proof. apply in_scan_pairs. Qed.

Lemma pairs_of_file fs0 d ls b f :
  listing_ok fs0 d ls -> In (b, f) (pairs_of fs0 d ls) ->
  fs0 (d ++ [f]) = Some File.
Proof.
  intros Hl Hin. apply in_pairs_of in Hin as (Hin & Hfi & _).
  eapply file_item_file; eauto.
Qed.

Lemma fs2_of_file fs0 d ls b f :
  listing_ok fs0 d ls -> In (b, f) (pairs_of fs0 d ls) ->
  fs2_of fs0 d ls (d ++ [f]) = Some File.
Proof.
  intros Hl Hin. unfold fs2_of, created. now rewrite (pairs_of_file _ _ _ _ _ Hl Hin).
Qed.

Lemma pairs_of_nodup fs0 d ls :
  listing_ok fs0 d ls -> NoDup (map snd (pairs_of fs0 d ls)).
Proof.
  intros [Hnd _]. unfold pairs_of, fm_of.
  eapply Permutation_NoDup.
  - symmetry. apply Permutation_map. apply scan_pairs.
  - rewrite map_map. simpl. rewrite map_id. now apply NoDup_filter.
Qed.

Lemma run_unfold fs0 d ls :
  run ls d fs0 =
    match lookup fs0 d with
    | Some Dir => bind (ensure_folders d (map fst (fm_of fs0 d ls)))
                       (fun _ => relocate d (fm_of fs0 d ls))
                       (mkSt fs0 [Call (CListdir d)])
    | Some File => (inr (Fault (CListdir d) ENOTDIR), mkSt fs0 [Call (CListdir d)])
    | None => (inr (Fault (CListdir d) ENOENT), mkSt fs0 [Call (CListdir d)])
    end.
Proof.
  unfold run, create_and_move_files, fm_of, os_listdir, syscall, query, ret.
  unfold bind at 1 2 3. cbn [fs log app].
  destruct (lookup fs0 d) as [[|]|]; try reflexivity.
  cbn [fs log]. destruct (scan fs0 d (ls d)); reflexivity.
Qed.

(** On a directory, the run is Step 2 followed by the moves. *)
Lemma run_dir fs0 d ls :
  lookup fs0 d = Some Dir ->
  run ls d fs0 =
  move_pairs d (pairs_of fs0 d ls) (mkSt (moved_fs (fs2_of fs0 d ls) d []) (log2_of fs0 d ls)).
Proof.
  intros Hd. rewrite run_unfold, Hd.
  unfold bind at 1. rewrite ensure_folders_ok; auto.
  2: { apply scan_wf. }
  rewrite relocate_pairs. reflexivity.
Qed.

Lemma run_cases fs0 d ls :
  listing_ok fs0 d ls ->
  (lookup fs0 d <> Some Dir /\
   exists e, run ls d fs0 = (inr (Fault (CListdir d) e), mkSt fs0 [Call (CListdir d)]))
  \/
  (lookup fs0 d = Some Dir /\
   (run ls d fs0 =
      (inl tt, mkSt (moved_fs (fs2_of fs0 d ls) d (pairs_of fs0 d ls))
                    (log2_of fs0 d ls ++ mlog d (pairs_of fs0 d ls)))
    \/ exists P1 b f P2 e, pairs_of fs0 d ls = P1 ++ (b, f) :: P2 /\
       run ls d fs0 =
       (inr (Fault (CMove (d ++ [f]) (d ++ [b; f])) e),
        mkSt (moved_fs (fs2_of fs0 d ls) d P1)
             (log2_of fs0 d ls ++ mlog d P1 ++ [Call (CMove (d ++ [f]) (d ++ [b; f]))])))).
Proof.
  intros Hl.
  rewrite run_unfold.
  destruct (lookup fs0 d) as [[|]|] eqn:Hd.
  - left. split; [congruence|]. eexists. reflexivity.
  - right. split; auto.
    assert (HM : bind (ensure_folders d (map fst (fm_of fs0 d ls)))
                      (fun _ => relocate d (fm_of fs0 d ls))
                      (mkSt fs0 [Call (CListdir d)]) =
                 move_pairs d (pairs_of fs0 d ls)
                   (mkSt (moved_fs (fs2_of fs0 d ls) d []) (log2_of fs0 d ls))).
    { unfold bind at 1. rewrite ensure_folders_ok; auto.
      2: { apply scan_wf. }
      rewrite relocate_pairs. reflexivity. }
    rewrite HM.
    destruct (move_pairs_spec (fs2_of fs0 d ls) d (pairs_of fs0 d ls) []
                (log2_of fs0 d ls))
      as [H | (P1 & b & f & P2 & e & HP & H)].
    + apply pairs_of_nodup, Hl.
    + intros b f Hin. eapply fs2_of_file; eauto.
    + left. exact H.
    + right. exists P1, b, f, P2, e. split; auto.
  - left. split; [congruence|]. eexists. reflexivity.
Qed.

Lemma run_ok fs0 d ls :
  listing_ok fs0 d ls -> lookup fs0 d = Some Dir ->
  (forall b f, In (b, f) (pairs_of fs0 d ls) ->
     fs2_of fs0 d ls (d ++ [b]) = Some Dir /\
     (isdir (fs2_of fs0 d ls) (d ++ [b; f]) = true ->
      fs2_of fs0 d ls ((d ++ [b; f]) ++ [f]) = None)) ->
  run ls d fs0 =
    (inl tt, mkSt (moved_fs (fs2_of fs0 d ls) d (pairs_of fs0 d ls))
                  (log2_of fs0 d ls ++ mlog d (pairs_of fs0 d ls))).
Proof.
  intros Hl Hd Hg. rewrite run_dir by exact Hd.
  apply (move_pairs_ok _ _ _ [] _); simpl.
  - apply pairs_of_nodup, Hl.
  - intros b f Hin. eapply fs2_of_file; eauto.
  - exact Hg.
Qed.

(** Every outcome of a run: the listing fails and nothing happens, or the
    moves of a prefix [P1] of the move order are done, possibly followed by
    the move that raised. *)
Lemma run_outcome fs0 d ls r fs' l :
  listing_ok fs0 d ls -> run ls d fs0 = (r, mkSt fs' l) ->
  (fs' = fs0 /\ l = [Call (CListdir d)]) \/
  (lookup fs0 d = Some Dir /\
   exists P1 P2 tl,
     pairs_of fs0 d ls = P1 ++ P2 /\
     fs' = moved_fs (fs2_of fs0 d ls) d P1 /\
     l = log2_of fs0 d ls ++ mlog d P1 ++ tl /\
     (tl = [] \/ exists b f, In (b, f) P2 /\ tl = [Call (CMove (d ++ [f]) (d ++ [b; f]))])).
Proof.
  intros Hl Hr.
  destruct (run_cases fs0 d ls Hl)
    as [[_ [e H]] | [Hd [H | (P1 & b & f & P2 & e & HP & H)]]];
    rewrite H in Hr; inversion Hr; subst.
  - left; auto.
  - right. split; auto. exists (pairs_of fs0 d ls), [], [].
    rewrite !app_nil_r. repeat split; auto.
  - right. split; auto.
    exists P1, ((b, f) :: P2), [Call (CMove (d ++ [f]) (d ++ [b; f]))].
    repeat split; auto. right. exists b, f. split; [now left | reflexivity].
Qed.

Lemma created_some fs0 d K p k : fs0 p = Some k -> created fs0 d K p = Some k.
Proof. intros H. unfold created. now rewrite H. Qed.

Lemma created_frame fs0 d K p :
  (forall b, In b K -> p <> d ++ [b]) -> created fs0 d K p = fs0 p.
Proof.
  intros H. unfold created. destruct (fs0 p); auto.
  rewrite existsb_none; auto. intros b Hb. apply path_eqb_neq. now apply H.
Qed.

Lemma created_key fs0 d K b :
  fs0 (d ++ [b]) = None -> In b K -> created fs0 d K (d ++ [b]) = Some Dir.
Proof.
  intros H Hb. unfold created. rewrite H.
  replace (existsb _ K) with true; auto. symmetry.
  apply existsb_exists. exists b. split; auto. apply path_eqb_refl.
Qed.

(** Where a moved file ends up: [d/b/f], or [d/b/f/f] when [d/b/f] was a
    directory, which then stays. *)
Lemma moved_fs_target fs2 d mv b f :
  In (b, f) mv ->
  (isdir fs2 (d ++ [b; f]) = false /\ moved_fs fs2 d mv (d ++ [b; f]) = Some File) \/
  (isdir fs2 (d ++ [b; f]) = true /\ moved_fs fs2 d mv (d ++ [b; f]) = Some Dir /\
   moved_fs fs2 d mv (d ++ [b; f; f]) = Some File).
Proof.
  intros Hin.
  destruct (isdir fs2 (d ++ [b; f])) eqn:E.
  - right. split; auto. split.
    + rewrite moved_fs_frame.
      * unfold isdir in E. rewrite lookup_child in E.
        destruct (fs2 (d ++ [b; f])) as [[|]|]; congruence.
      * intros b' f' Hin'. split; [path_neq|].
        intros E'. destruct (real_dst_cases fs2 d b' f') as [R|R]; rewrite R in E'.
        -- apply app_cons_inj in E' as [-> E2]. inversion E2; subst.
           unfold real_dst in R. rewrite E in R.
           apply (f_equal (@List.length _)) in R. rewrite !length_app in R. simpl in R. lia.
        -- apply app_cons_len in E'. discriminate.
    + replace (d ++ [b; f; f]) with (real_dst fs2 d b f).
      * now apply moved_fs_dst.
      * unfold real_dst. rewrite E. now rewrite <- app_assoc.
  - left. split; auto.
    replace (d ++ [b; f]) with (real_dst fs2 d b f) by (unfold real_dst; now rewrite E).
    now apply moved_fs_dst.
Qed.

Lemma in_elog fs0 d K ev :
  In ev (elog fs0 d K) <->
  exists b, In b K /\ fs0 (d ++ [b]) = None /\
    (ev = Call (CMakedirs (d ++ [b])) \/ ev = Print (Created (d ++ [b]))).
Proof.
  unfold elog. rewrite in_flat_map. split.
  - intros [b [Hb Hev]]. unfold path_exists in Hev. rewrite lookup_child in Hev.
    destruct (fs0 (d ++ [b])) eqn:E; simpl in Hev; [contradiction|].
    exists b. repeat split; auto. destruct Hev as [<-|[<-|[]]]; auto.
  - intros [b [Hb [Hn Hev]]]. exists b. split; auto.
    unfold path_exists. rewrite lookup_child, Hn. simpl.
    destruct Hev as [->| ->]; auto.
Qed.

Lemma in_mlog d P ev :
  In ev (mlog d P) <->
  exists b f, In (b, f) P /\
    (ev = Call (CMove (d ++ [f]) (d ++ [b; f])) \/
     ev = Print (Moved (d ++ [f]) (d ++ [b; f]))).
Proof.
  unfold mlog. rewrite in_flat_map. split.
  - intros [[b f] [Hin Hev]]. exists b, f. split; auto.
    destruct Hev as [<-|[<-|[]]]; auto.
  - intros [b [f [Hin Hev]]]. exists (b, f). split; auto.
    destruct Hev as [->| ->]; simpl; auto.
Qed.

Lemma in_pairs fm b f : In (b, f) (pairs fm) <-> exists fl, In (b, fl) fm /\ In f fl.
Proof.
  unfold pairs. rewrite in_flat_map. split.
  - intros [[b' fl] [Hin Hm]]. apply in_map_iff in Hm as [f' [E Hf]].
    inversion E; subst. eauto.
  - intros [fl [Hin Hf]]. exists (b, fl). split; auto. apply in_map_iff. eauto.
Qed.

Lemma nodup_snd_prefix (P1 P2 : list (string * string)) :
  NoDup (map snd (P1 ++ P2)) -> NoDup (map snd P1).
Proof. rewrite map_app. apply NoDup_app_remove_r. Qed.

(** A key of Step 2 is the stem of a file: it names no file of [d]. *)
Lemma pairs_of_key fs0 d ls b f :
  In (b, f) (pairs_of fs0 d ls) -> b = stem f /\ startswith_dot f = false.
Proof.
  intros H. apply in_pairs_of in H as (_ & Hfi & Hb). split; auto.
  unfold is_file_item in Hfi. destruct (startswith_dot f); auto.
Qed.

Lemma keys_of fs0 d ls b :
  In b (map fst (fm_of fs0 d ls)) <->
  exists f, In (b, f) (pairs_of fs0 d ls).
Proof.
  unfold fm_of, pairs_of. rewrite in_scan_keys. split.
  - intros [f Hf]. exists f. now apply in_scan_pairs.
  - intros [f Hf]. exists f. now apply in_scan_pairs.
Qed.

(** The directory itself is left as it was. *)
Lemma lookup_moved_dir fs0 d ls P1 :
  lookup (moved_fs (fs2_of fs0 d ls) d P1) d = lookup fs0 d.
Proof.
  destruct d as [|x d']; [reflexivity|].
  unfold lookup. rewrite moved_fs_frame.
  - unfold fs2_of. apply created_frame. intros b _. apply app_cons_neq.
  - intros b f _. split; [apply app_cons_neq|].
    destruct (real_dst_cases (fs2_of fs0 (x :: d') ls) (x :: d') b f) as [-> | ->];
      apply app_cons_neq.
Qed.

(** ** The log only grows *)

Definition extends {A} (m : M A) : Prop :=
  forall s, exists l', log (snd (m s)) = log s ++ l'.

Lemma extends_ret {A} (a : A) : extends (ret a).
Proof. intros s. exists []. now rewrite app_nil_r. Qed.

Lemma extends_query {A} (f : FS -> A) : extends (query f).
Proof. intros s. exists []. now rewrite app_nil_r. Qed.

Lemma extends_print l : extends (print l).
Proof. intros s. now exists [Print l]. Qed.

Lemma extends_syscall c f : extends (syscall c f).
Proof. intros s. exists [Call c]. unfold syscall. now destruct (f (fs s)). Qed.

Lemma extends_bind {A B} (m : M A) (k : A -> M B) :
  extends m -> (forall a, extends (k a)) -> extends (bind m k).
Proof.
  intros Hm Hk s. unfold bind. destruct (Hm s) as [l1 H1].
  destruct (m s) as [[a|f] s'] eqn:E; simpl in *.
  - destruct (Hk a s') as [l2 H2]. exists (l1 ++ l2). now rewrite H2, H1, app_assoc.
  - now exists l1.
Qed.

Create HintDb extends.
#[local] Hint Resolve extends_ret extends_query extends_print extends_syscall
  extends_bind : extends.

Lemma extends_ensure_folders d K : extends (ensure_folders d K).
Proof.
  induction K as [|b K IH]; simpl; auto with extends.
  apply extends_bind; auto with extends. intros ex.
  apply extends_bind; auto. destruct (negb ex); unfold os_makedirs; auto with extends.
Qed.

Lemma extends_move_files d t fl : extends (move_files d t fl).
Proof.
  induction fl as [|f fl IH]; simpl; auto with extends.
  unfold shutil_move_m. auto with extends.
Qed.

Lemma extends_relocate d fm : extends (relocate d fm).
Proof.
  induction fm as [|[b fl] fm IH]; simpl; auto with extends.
  apply extends_bind; auto. apply extends_move_files.
Qed.

(** Whatever happens, the first thing a run does is list [d]. *)
Lemma run_first_call ls d fs0 :
  exists rest, log (snd (run ls d fs0)) = Call (CListdir d) :: rest.
Proof.
  rewrite run_unfold. destruct (lookup fs0 d) as [[|]|]; simpl; eauto.
  destruct (extends_bind _ _ (extends_ensure_folders d (map fst (fm_of fs0 d ls)))
              (fun _ => extends_relocate d (fm_of fs0 d ls))
              (mkSt fs0 [Call (CListdir d)])) as [l' H].
  rewrite H. simpl. eauto.
Qed.

(** ** Paths named by a call *)

Definition call_paths (c : call) : list path :=
  match c with
  | CListdir p => [p]
  | CMakedirs p => [p]
  | CMove src dst => [src; dst]
  end.

Lemma under_parent (d : path) h : under (d ++ [h]) d = false.
Proof. induction d as [|x d IH]; simpl; auto. now rewrite String.eqb_refl. Qed.

(** ** Finite directories

    A filesystem given by its entries, and a check that a listing lists
    exactly the children of [d], each once. *)

Definition fs_of (es : list (path * kind)) : FS :=
  fun p => option_map snd (find (fun e => path_eqb (fst e) p) es).

Fixpoint strip_prefix (d p : path) : option path :=
  match d, p with
  | [], _ => Some p
  | x :: d', y :: p' => if String.eqb x y then strip_prefix d' p' else None
  | _ :: _, [] => None
  end.

Fixpoint nodupb (l : list string) : bool :=
  match l with
  | [] => true
  | x :: l' => negb (existsb (String.eqb x) l') && nodupb l'
  end.

Definition listing_okb (es : list (path * kind)) (d : path) (items : list string) : bool :=
  nodupb items &&
  forallb (fun x => path_exists (fs_of es) (d ++ [x])) items &&
  forallb (fun e => match strip_prefix d (fst e) with
                    | Some [x] => existsb (String.eqb x) items
                    | _ => true
                    end) es.

Lemma strip_prefix_app d q : strip_prefix d (d ++ q) = Some q.
Proof.
  induction d as [|x d IH]; simpl; [now destruct q|].
  now rewrite String.eqb_refl.
Qed.

Lemma nodupb_nodup l : nodupb l = true -> NoDup l.
Proof.
  induction l as [|x l IH]; simpl; intros H; constructor.
  - apply andb_true_iff in H as [H _]. apply negb_true_iff in H.
    intros Hin. assert (existsb (String.eqb x) l = true); [|congruence].
    apply existsb_exists. exists x. split; auto. apply String.eqb_refl.
  - apply andb_true_iff in H as [_ H]. auto.
Qed.

Lemma listing_okb_sound es d ls :
  listing_okb es d (ls d) = true -> listing_ok (fs_of es) d ls.
Proof.
  unfold listing_okb. intros H.
  apply andb_true_iff in H as [H H3]. apply andb_true_iff in H as [H1 H2].
  split; [now apply nodupb_nodup|]. intros x. split.
  - intros Hin. rewrite forallb_forall in H2. specialize (H2 x Hin).
    unfold path_exists in H2. rewrite lookup_child in H2.
    destruct (fs_of es (d ++ [x])); congruence.
  - intros Hx. unfold fs_of in Hx.
    destruct (find _ es) as [e|] eqn:E; [|contradiction].
    apply find_some in E as [Hin Heq]. apply path_eqb_eq in Heq.
    rewrite forallb_forall in H3. specialize (H3 e Hin).
    rewrite Heq, strip_prefix_app in H3.
    apply existsb_exists in H3 as [y [Hy Exy]]. apply String.eqb_eq in Exy. now subst.
Qed.

(** [listing_ok] only depends on the children of [d] and on the listing up
    to its order. *)
Lemma listing_ok_transfer fs0 fs1 d ls ls' :
  listing_ok fs0 d ls ->
  (forall x, fs1 (d ++ [x]) = fs0 (d ++ [x])) ->
  Permutation (ls d) (ls' d) ->
  listing_ok fs1 d ls'.
Proof.
  intros [Hnd Hin] Hx Hp. split.
  - eapply Permutation_NoDup; eauto.
  - intros x. rewrite Hx, <- Hin. split; apply Permutation_in; auto.
    now symmetry.
Qed.

(** ** Path equality, segment by segment *)

Lemma path_eqb_cons x p y q :
  path_eqb (x :: p) (y :: q) = String.eqb x y && path_eqb p q.
Proof.
  destruct (String.eqb_spec x y) as [->|N]; simpl.
  - destruct (path_eqb p q) eqn:E.
    + apply path_eqb_eq in E. subst. apply path_eqb_refl.
    + apply path_eqb_neq. intros H. inversion H; subst.
      now rewrite path_eqb_refl in E.
  - apply path_eqb_neq. intros H. now inversion H.
Qed.

Lemma path_eqb_nil_cons y q : path_eqb [] (y :: q) = false.
Proof. now apply path_eqb_neq. Qed.

Lemma path_eqb_cons_nil x p : path_eqb (x :: p) [] = false.
Proof. now apply path_eqb_neq. Qed.

Lemma path_eqb_nil : path_eqb [] [] = true.
Proof. reflexivity. Qed.

Create Rewrite HintDb paths.
#[local] Hint Rewrite path_eqb_cons path_eqb_nil_cons path_eqb_cons_nil path_eqb_nil
  andb_true_r andb_false_r : paths.

Lemma nodup_fst_unique {A B} (l : list (A * B)) k v1 v2 :
  NoDup (map fst l) -> In (k, v1) l -> In (k, v2) l -> v1 = v2.
Proof.
  induction l as [|[k' v] l IH]; simpl; [tauto|].
  intros Hnd H1 H2. inversion Hnd as [|? ? Hn Hnd']; subst.
  destruct H1 as [E1|H1]; destruct H2 as [E2|H2].
  - inversion E1; inversion E2; congruence.
  - inversion E1; subst. exfalso. apply Hn. apply in_map_iff. now exists (k, v2).
  - inversion E2; subst. exfalso. apply Hn. apply in_map_iff. now exists (k, v1).
  - eauto.
Qed.

(** A file of the scan sits in the group of its stem. *)
Lemma scan_group fs0 d items f :
  In f items -> is_file_item fs0 d f = true ->
  exists fl, In (stem f, fl) (fst (scan fs0 d items)) /\ In f fl.
Proof.
  intros Hin Hfi. apply in_pairs. apply in_scan_pairs. auto.
Qed.

Lemma is_file_item_visible fs0 d f :
  is_file_item fs0 d f = true -> startswith_dot f = false.
Proof. unfold is_file_item. destruct (startswith_dot f); auto. Qed.

(** ** Concrete directories *)

(** A directory holding the single regular file [README]. *)
Definition fs_readme : FS := fs_of [(["README"], File)].

Definition ls_readme : path -> list string := fun _ => ["README"].

(** A directory [photos] holding [x.txt]. *)
Definition fs_photos : FS := fs_of [(["photos"], Dir); (["photos"; "x.txt"], File)].

Definition ls_photos : path -> list string :=
  fun p => if path_eqb p [] then ["photos"] else ["x.txt"].

(** A directory with two files of stem [a], a file [b.log] next to an
    existing folder [b], and a hidden folder [.git]. *)
Definition ex_fs : FS :=
  fs_of [(["a.txt"], File); (["a.csv"], File); (["b.log"], File);
         ([".git"], Dir); ([".git"; "HEAD"], File); (["b"], Dir)].

Definition ex_ls : path -> list string :=
  fun _ => ["a.txt"; ".git"; "b.log"; "a.csv"; "b"].

(** The same directory after its run, listed again. *)
Definition ex_ls2 : path -> list string := fun _ => ["a"; ".git"; "b"].

(** A directory where the second move raises: [a.txt] is moved into a new
    folder [a], then [README] cannot be moved into [README/]. *)
Definition fault_fs : FS := fs_of [(["a.txt"], File); (["README"], File)].

Definition fault_ls : path -> list string := fun _ => ["a.txt"; "README"].

(** The scenario of the specification: [a.txt], [a.csv], [b.log] and a
    folder [existing] whose contents are [sub]. *)
Definition c3_names : list string := ["a.txt"; "a.csv"; "b.log"; "existing"].

Definition c3_top : list (path * kind) :=
  [(["a.txt"], File); (["a.csv"], File); (["b.log"], File); (["existing"], Dir)].

Definition c3_fs (sub : path -> option kind) : FS :=
  fun p => match p with
           | x :: ((_ :: _) as q) => if String.eqb x "existing" then sub q else None
           | _ => fs_of c3_top p
           end.

Definition c3_pairs : list (string * string) :=
  [("a", "a.txt"); ("a", "a.csv"); ("b", "b.log")].

Definition c3_after (sub : path -> option kind) : FS :=
  moved_fs (created (c3_fs sub) [] ["a"; "b"]) [] c3_pairs.

Lemma existsb_mem {A} (g : A -> bool) l1 l2 :
  (forall x, In x l1 <-> In x l2) -> existsb g l1 = existsb g l2.
Proof.
  intros H. destruct (existsb g l1) eqn:E1; destruct (existsb g l2) eqn:E2; auto.
  - apply existsb_exists in E1 as [x [Hx Gx]]. apply H in Hx.
    assert (existsb g l2 = true) by (apply existsb_exists; eauto). congruence.
  - apply existsb_exists in E2 as [x [Hx Gx]]. apply H in Hx.
    assert (existsb g l1 = true) by (apply existsb_exists; eauto). congruence.
Qed.

Lemma created_mem fs0 d K K' :
  (forall b, In b K <-> In b K') -> created fs0 d K = created fs0 d K'.
Proof.
  intros H. extensionality p. unfold created. now rewrite (existsb_mem _ K K' H).
Qed.

Lemma moved_fs_mem fs2 d P Q :
  (forall x, In x P <-> In x Q) -> moved_fs fs2 d P = moved_fs fs2 d Q.
Proof.
  intros H. extensionality p. unfold moved_fs.
  rewrite (existsb_mem _ P Q H), (existsb_mem _ P Q H). reflexivity.
Qed.

(** Every event a run logs. *)
Lemma run_events fs0 d ls r fs' l ev :
  listing_ok fs0 d ls -> run ls d fs0 = (r, mkSt fs' l) -> In ev l ->
  ev = Call (CListdir d) \/
  (exists b, In b (map fst (fm_of fs0 d ls)) /\ fs0 (d ++ [b]) = None /\
     (ev = Call (CMakedirs (d ++ [b])) \/ ev = Print (Created (d ++ [b])))) \/
  (exists b f, In (b, f) (pairs_of fs0 d ls) /\
     (ev = Call (CMove (d ++ [f]) (d ++ [b; f])) \/
      ev = Print (Moved (d ++ [f]) (d ++ [b; f])))).
Proof.
  intros Hl Hr Hin.
  destruct (run_outcome _ _ _ _ _ _ Hl Hr)
    as [[_ ->] | [_ (P1 & P2 & tl & HP & _ & -> & Htl)]].
  - destruct Hin as [<-|[]]. now left.
  - unfold log2_of in Hin. rewrite !in_app_iff in Hin.
    destruct Hin as [[[<-|[]] | Hin] | [Hin | Hin]].
    + now left.
    + right. left. now apply in_elog.
    + right. right. apply in_mlog in Hin as (b & f & Hbf & Hev).
      exists b, f. split; auto. rewrite HP. apply in_or_app. now left.
    + right. right. destruct Htl as [-> | (b & f & Hbf & ->)]; [destruct Hin|].
      destruct Hin as [<-|[]]. exists b, f. split; auto.
      rewrite HP. apply in_or_app. now right.
Qed.

(** ** The scenario of the specification *)

Lemma c3_after_eq sub p :
  c3_after sub p =
  if existsb (path_eqb p) [["a.txt"]; ["a.csv"]; ["b.log"]] then None
  else if existsb (path_eqb p) [["a"; "a.txt"]; ["a"; "a.csv"]; ["b"; "b.log"]]
  then Some File
  else match c3_fs sub p with
       | Some k => Some k
       | None => if existsb (path_eqb p) [["a"]; ["b"]] then Some Dir else None
       end.
Proof. reflexivity. Qed.

Ltac str_cases x :=
  repeat match goal with
  | |- context [String.eqb x ?y] => destruct (String.eqb_spec x y) as [->|]
  | |- context [String.eqb ?y x] => destruct (String.eqb_spec y x) as [<-|]
  end.

Ltac c3_eval :=
  rewrite c3_after_eq; cbn -[path_eqb]; autorewrite with paths;
  unfold fs_of; cbn -[path_eqb String.eqb]; autorewrite with paths.

Lemma c3_listing sub ls :
  Permutation (ls []) c3_names -> listing_ok (c3_fs sub) [] ls.
Proof.
  intros Hp. apply (listing_ok_transfer (fs_of c3_top) _ [] (fun _ => c3_names)).
  - apply listing_okb_sound. vm_compute. reflexivity.
  - intros x. reflexivity.
  - simpl. now symmetry.
Qed.

Lemma c3_pairs_mem sub ls :
  Permutation (ls []) c3_names ->
  forall x, In x (pairs_of (c3_fs sub) [] ls) <-> In x c3_pairs.
Proof.
  intros Hp [b f]. rewrite in_pairs_of. split.
  - intros (Hin & Hfi & ->). apply (Permutation_in _ Hp) in Hin.
    destruct Hin as [<-|[<-|[<-|[<-|[]]]]].
    + now left.
    + right. now left.
    + right. right. now left.
    + vm_compute in Hfi. discriminate.
  - intros H. destruct H as [E|[E|[E|[]]]]; inversion E; subst;
      (split; [apply (Permutation_in _ (Permutation_sym Hp)); unfold c3_names; simpl;
               repeat (first [now left | right]) | split; reflexivity]).
Qed.

Lemma c3_keys_mem sub ls :
  Permutation (ls []) c3_names ->
  forall b, In b (map fst (fm_of (c3_fs sub) [] ls)) <-> In b ["a"; "b"].
Proof.
  intros Hp b. rewrite keys_of. split.
  - intros [f Hf]. apply (c3_pairs_mem sub ls Hp) in Hf.
    destruct Hf as [E|[E|[E|[]]]]; inversion E; subst; simpl; auto.
  - intros [<-|[<-|[]]]; [exists "a.txt" | exists "b.log"];
      apply (c3_pairs_mem sub ls Hp); simpl; auto.
Qed.

Lemma c3_run sub ls :
  Permutation (ls []) c3_names ->
  run ls [] (c3_fs sub) =
    (inl tt, mkSt (c3_after sub)
                  (log2_of (c3_fs sub) [] ls ++ mlog [] (pairs_of (c3_fs sub) [] ls))).
Proof.
  intros Hp.
  assert (Hfs2 : fs2_of (c3_fs sub) [] ls = created (c3_fs sub) [] ["a"; "b"])
    by (unfold fs2_of; apply created_mem; now apply c3_keys_mem).
  rewrite run_ok.
  - unfold c3_after. rewrite Hfs2.
    rewrite (moved_fs_mem _ _ _ c3_pairs) by now apply c3_pairs_mem. reflexivity.
  - now apply c3_listing.
  - reflexivity.
  - intros b f Hin. apply (c3_pairs_mem sub ls Hp) in Hin. rewrite Hfs2.
    destruct Hin as [E|[E|[E|[]]]]; inversion E; subst;
      (split; [reflexivity | intros H; vm_compute in H; discriminate]).
Qed.

(** * The claims *)

(** C1 (the property fails).  Step 2 is meant to leave a directory
    [directory/B] for every key [B].  It does not when [B] already names a
    regular file: for the directory holding only [README], the key [README]
    exists, Step 2 does nothing, and [README] is still a regular file. *)
Theorem c1_key_not_a_folder :
  In "README" (map fst (fm_of fs_readme [] ls_readme)) /\
  ensure_folders [] (map fst (fm_of fs_readme [] ls_readme))
    (mkSt fs_readme [Call (CListdir [])]) =
    (inl tt, mkSt fs_readme [Call (CListdir [])]) /\
  isdir fs_readme ["README"] = false.
Proof. split; [now left | split; reflexivity]. Qed.

(** C2 (the property fails).  A file without extension is its own stem, yet
    the run on the directory holding only [README] does not produce a folder
    [README] holding it: the move of [README] to [README/README] raises
    ENOTDIR and the filesystem is left as it was. *)
Theorem c2_no_extension_file_faults :
  stem "README" = "README" /\
  run ls_readme [] fs_readme =
    (inr (Fault (CMove ["README"] ["README"; "README"]) ENOTDIR),
     mkSt fs_readme [Call (CListdir []); Call (CMove ["README"] ["README"; "README"])]).
Proof. split; reflexivity. Qed.

(** C7.  Every visible file of the listing is grouped under its stem, and the
    stem drops only the last extension: a name [stem0.ext] with no dot in
    [ext] has stem [stem0], and a name without dot is its own stem. *)
Theorem c7_stem_strips_final_extension fs0 d items f :
  In f items -> is_file_item fs0 d f = true -> contains sep f = false ->
  (exists fl, In (stem f, fl) (fst (scan fs0 d items)) /\ In f fl) /\
  (forall stem0 ext, f = (stem0 ++ String "." ext)%string ->
     contains extsep ext = false -> stem f = stem0) /\
  (contains extsep f = false -> stem f = f).
Proof.
  intros Hin Hfi Hsep. split; [|split].
  - now apply scan_group.
  - intros stem0 ext -> Hext. unfold stem.
    rewrite splitext_last_dot; auto. now apply is_file_item_visible in Hfi.
  - intros H. unfold stem. now rewrite splitext_no_dot.
Qed.

Lemma c7_witness :
  stem "archive.tar.gz" = "archive.tar" /\
  exists fl, In ("archive.tar", fl) (fst (scan (fun _ => Some File) [] ["archive.tar.gz"])) /\
             In "archive.tar.gz" fl.
Proof.
  destruct (c7_stem_strips_final_extension (fun _ => Some File) [] ["archive.tar.gz"]
              "archive.tar.gz" (or_introl eq_refl) eq_refl eq_refl) as [G [H _]].
  assert (E : stem "archive.tar.gz" = "archive.tar") by (apply (H "archive.tar" "gz"); reflexivity).
  split; [exact E|]. rewrite <- E. exact G.
Defined.

(** C10.  A visible name [stem0.] ending in a bare dot has stem [stem0]: it is
    grouped with [stem0.ext], and not in a group named [stem0.]. *)
Theorem c10_trailing_dot_stripped fs0 d items stem0 ext :
  In (stem0 ++ ".")%string items -> In (stem0 ++ String "." ext)%string items ->
  is_file_item fs0 d (stem0 ++ ".") = true ->
  is_file_item fs0 d (stem0 ++ String "." ext) = true ->
  contains sep (stem0 ++ ".") = false ->
  contains sep (stem0 ++ String "." ext) = false ->
  contains extsep ext = false ->
  stem (stem0 ++ ".") = stem0 /\
  (exists fl, In (stem0, fl) (fst (scan fs0 d items)) /\
              In (stem0 ++ ".")%string fl /\ In (stem0 ++ String "." ext)%string fl) /\
  (forall fl, In ((stem0 ++ ".")%string, fl) (fst (scan fs0 d items)) ->
              ~ In (stem0 ++ ".")%string fl).
Proof.
  intros Hin1 Hin2 Hfi1 Hfi2 Hsep1 Hsep2 Hext.
  assert (S1 : stem (stem0 ++ ".") = stem0).
  { unfold stem. rewrite splitext_last_dot; auto. now apply is_file_item_visible in Hfi1. }
  assert (S2 : stem (stem0 ++ String "." ext) = stem0).
  { unfold stem. rewrite splitext_last_dot; auto. now apply is_file_item_visible in Hfi2. }
  split; [exact S1|split].
  - destruct (scan_group _ _ _ _ Hin1 Hfi1) as [fl1 [G1 F1]].
    destruct (scan_group _ _ _ _ Hin2 Hfi2) as [fl2 [G2 F2]].
    rewrite S1 in G1. rewrite S2 in G2.
    assert (fl1 = fl2) by (eapply nodup_fst_unique; eauto; apply scan_wf).
    subst. exists fl2. auto.
  - intros fl G F.
    assert (Hp : In ((stem0 ++ ".")%string, (stem0 ++ ".")%string) (pairs (fst (scan fs0 d items))))
      by (apply in_pairs; eauto).
    apply in_scan_pairs in Hp as (_ & _ & E). rewrite S1 in E.
    apply (f_equal String.length) in E. rewrite string_length_app in E. simpl in E. lia.
Qed.

Lemma c10_witness :
  stem "foo." = "foo" /\
  exists fl, In ("foo", fl) (fst (scan (fun _ => Some File) [] ["foo."; "foo.txt"])) /\
             In "foo." fl /\ In "foo.txt" fl.
Proof.
  destruct (c10_trailing_dot_stripped (fun _ => Some File) [] ["foo."; "foo.txt"] "foo" "txt")
    as [H1 [H2 _]]; try reflexivity.
  - now left.
  - right. now left.
  - exact (conj H1 H2).
Defined.

(** C9 (as stated, false).  With the argument [photos] the program does not
    organize [photos]: it organizes the working directory. *)
Lemma c9_argument_ignored :
  main ls_photos ["photos"] (mkSt fs_photos []) <>
  create_and_move_files ls_photos ["photos"] (mkSt fs_photos []) /\
  log (snd (main ls_photos ["photos"] (mkSt fs_photos []))) = [Call (CListdir [])].
Proof.
  split; [|reflexivity].
  intros H. apply (f_equal (fun r => log (snd r))) in H. vm_compute in H. discriminate.
Qed.

(** C9, as the code has it: whatever its arguments, the entry point runs
    [create_and_move_files('.')], and its first call lists the working
    directory. *)
Theorem c9_main_organizes_cwd ls argv fs0 :
  main ls argv (mkSt fs0 []) = run ls [] fs0 /\
  exists rest, log (snd (main ls argv (mkSt fs0 []))) = Call (CListdir []) :: rest.
Proof.
  split; [reflexivity|]. apply run_first_call.
Qed.

(** C4.  An entry whose name starts with a dot is in no folder set and no
    group, no group is named after it, and the run, however it ends, leaves
    every path at or below it as it was and calls nothing on such a path. *)
Theorem c4_hidden_untouched fs0 d ls h :
  listing_ok fs0 d ls -> startswith_dot h = true ->
  ~ In h (snd (scan fs0 d (ls d))) /\
  ~ In h (map fst (fm_of fs0 d ls)) /\
  (forall b fl, In (b, fl) (fm_of fs0 d ls) -> ~ In h fl) /\
  (forall r fs' l, run ls d fs0 = (r, mkSt fs' l) ->
     (forall q, fs' (d ++ h :: q) = fs0 (d ++ h :: q)) /\
     (forall c p, In (Call c) l -> In p (call_paths c) -> under (d ++ [h]) p = false)).
Proof.
  intros Hl Hh.
  assert (Hp : forall b f, In (b, f) (pairs_of fs0 d ls) -> h <> b /\ h <> f).
  { intros b f Hin. apply pairs_of_key in Hin as [-> Hf].
    split; intros ->; [rewrite startswith_dot_stem in Hh|]; congruence. }
  assert (Hk : forall b, In b (map fst (fm_of fs0 d ls)) -> h <> b).
  { intros b Hb. apply keys_of in Hb as [f Hf]. now apply Hp in Hf as [? _]. }
  split; [|split; [|split]].
  - intros Hin. apply scan_folders in Hin as (_ & H & _). congruence.
  - intros Hin. now apply (Hk h).
  - intros b fl Hin Hf.
    assert (H : In (b, h) (pairs_of fs0 d ls)) by (apply in_pairs; eauto).
    apply Hp in H as [_ H]. now apply H.
  - intros r fs' l Hr. split.
    + destruct (run_outcome _ _ _ _ _ _ Hl Hr)
        as [[-> _] | [_ (P1 & P2 & tl & HP & -> & _ & _)]]; intros q; auto.
      rewrite moved_fs_frame.
      * unfold fs2_of. apply created_frame. intros b Hb E.
        apply app_cons_inj in E as [E _]. now apply (Hk b).
      * intros b f Hin.
        assert (Hin' : In (b, f) (pairs_of fs0 d ls))
          by (rewrite HP; apply in_or_app; now left).
        apply Hp in Hin' as [Hb Hf]. split.
        -- intros E. apply app_cons_inj in E as [E _]. congruence.
        -- destruct (real_dst_cases (fs2_of fs0 d ls) d b f) as [-> | ->];
             intros E; apply app_cons_inj in E as [E _]; congruence.
    + intros c p Hin Hpc.
      destruct (run_events _ _ _ _ _ _ _ Hl Hr Hin)
        as [E | [(b & Hb & _ & [E|E]) | (b & f & Hbf & [E|E])]];
        inversion E; subst; simpl in Hpc.
      * destruct Hpc as [<-|[]]. apply under_parent.
      * destruct Hpc as [<-|[]]. rewrite under_child. apply String.eqb_neq. now apply Hk.
      * apply Hp in Hbf as [Hb Hf].
        destruct Hpc as [<-|[<-|[]]]; rewrite under_child; now apply String.eqb_neq.
Qed.

Lemma c4_witness :
  listing_ok ex_fs [] ex_ls /\
  ~ In ".git" (map fst (fm_of ex_fs [] ex_ls)) /\
  fs (snd (run ex_ls [] ex_fs)) [".git"; "HEAD"] = Some File.
Proof.
  assert (Hl : listing_ok ex_fs [] ex_ls)
    by (apply listing_okb_sound; vm_compute; reflexivity).
  destruct (c4_hidden_untouched ex_fs [] ex_ls ".git" Hl eq_refl) as (_ & H2 & _ & H4).
  split; [exact Hl | split; [exact H2 |]].
  destruct (H4 (fst (run ex_ls [] ex_fs)) (fs (snd (run ex_ls [] ex_fs)))
               (log (snd (run ex_ls [] ex_fs))) eq_refl) as [Hq _].
  specialize (Hq ["HEAD"]). simpl app in Hq. rewrite Hq. reflexivity.
Defined.

(** C5.  After a run that succeeds, a second run on the resulting
    filesystem only lists the directory: nothing is created or moved and the
    filesystem stays as it is. *)
Theorem c5_second_run_noop fs0 d ls fs1 l1 ls' :
  listing_ok fs0 d ls -> run ls d fs0 = (inl tt, mkSt fs1 l1) ->
  forallb (fun x => path_exists fs1 (d ++ [x])) (ls' d) = true ->
  run ls' d fs1 = (inl tt, mkSt fs1 [Call (CListdir d)]).
Proof.
  intros Hl Hr Hex.
  destruct (run_cases fs0 d ls Hl)
    as [[_ [e H]] | [Hd [H | (P1 & b & f & P2 & e & HP & H)]]];
    rewrite H in Hr; inversion Hr; subst; clear Hr.
  set (P := pairs_of fs0 d ls) in *.
  set (fs2 := fs2_of fs0 d ls) in *.
  assert (Hnf : forall x, In x (ls' d) -> is_file_item (moved_fs fs2 d P) d x = false).
  { intros x Hx. rewrite forallb_forall in Hex. specialize (Hex x Hx).
    unfold path_exists in Hex. rewrite lookup_child in Hex.
    unfold is_file_item, isdir. rewrite lookup_child.
    destruct (startswith_dot x) eqn:Hh; [reflexivity|].
    destruct (in_dec string_dec x (map snd P)) as [Hin | Hnin].
    - apply in_map_iff in Hin as [[b f] [Ef Hbf]]. simpl in Ef. subst f.
      rewrite (moved_fs_src _ _ _ _ _ Hbf) in Hex. discriminate.
    - rewrite moved_fs_frame in *.
      2, 3: intros b f Hbf; split; [|apply child_neq_real];
            intros E; apply app_cons_inj in E as [E _]; subst;
            apply Hnin; apply in_map_iff; now exists (b, f).
      unfold fs2, fs2_of, created in *.
      destruct (fs0 (d ++ [x])) as [[|]|] eqn:E0.
      + exfalso. apply Hnin. apply in_map_iff. exists (stem x, x). split; auto.
        apply in_pairs_of. split; [apply Hl; congruence|split; auto].
        unfold is_file_item, isdir. now rewrite lookup_child, E0, Hh.
      + reflexivity.
      + destruct (existsb _ _); [reflexivity | discriminate]. }
  assert (Hfm : fm_of (moved_fs fs2 d P) d ls' = []) by (now apply scan_no_files).
  rewrite run_unfold, Hfm. subst fs2 P. rewrite lookup_moved_dir, Hd. reflexivity.
Qed.

Lemma c5_witness :
  run ex_ls [] ex_fs =
    (inl tt, mkSt (fs (snd (run ex_ls [] ex_fs))) (log (snd (run ex_ls [] ex_fs)))) /\
  run ex_ls2 [] (fs (snd (run ex_ls [] ex_fs))) =
    (inl tt, mkSt (fs (snd (run ex_ls [] ex_fs))) [Call (CListdir [])]).
Proof.
  assert (H1 : run ex_ls [] ex_fs =
    (inl tt, mkSt (fs (snd (run ex_ls [] ex_fs))) (log (snd (run ex_ls [] ex_fs)))))
    by reflexivity.
  split; [exact H1|].
  apply (c5_second_run_noop ex_fs [] ex_ls _ (log (snd (run ex_ls [] ex_fs))) ex_ls2).
  - apply listing_okb_sound. vm_compute. reflexivity.
  - exact H1.
  - vm_compute. reflexivity.
Defined.

(** C6.  A folder [B] that exists before the run is reused: no creation of
    [B] is attempted or printed, no fault is raised on its creation, and on
    success every visible file of stem [B] has left [directory] and sits in
    [B] (inside [B/file], when that was a directory). *)
Theorem c6_existing_folder_reused fs0 d ls B r fs' l :
  listing_ok fs0 d ls -> fs0 (d ++ [B]) = Some Dir ->
  run ls d fs0 = (r, mkSt fs' l) ->
  ~ In (Call (CMakedirs (d ++ [B]))) l /\
  ~ In (Print (Created (d ++ [B]))) l /\
  (forall e, r <> inr (Fault (CMakedirs (d ++ [B])) e)) /\
  (r = inl tt ->
   forall f, In f (ls d) -> is_file_item fs0 d f = true -> stem f = B ->
     fs' (d ++ [f]) = None /\ fs' (d ++ [B]) = Some Dir /\
     (fs' (d ++ [B; f]) = Some File \/
      (fs' (d ++ [B; f]) = Some Dir /\ fs' (d ++ [B; f; f]) = Some File))).
Proof.
  intros Hl HB Hr.
  assert (Hno : forall ev, In ev l ->
            ev <> Call (CMakedirs (d ++ [B])) /\ ev <> Print (Created (d ++ [B]))).
  { intros ev Hin.
    destruct (run_events _ _ _ _ _ _ _ Hl Hr Hin)
      as [-> | [(b & _ & Hn & [-> | ->]) | (b & f & _ & [-> | ->])]];
      split; intros E; inversion E;
      match goal with
      | H : d ++ [b] = d ++ [B] |- _ => rewrite H in Hn; congruence
      end. }
  split; [|split; [|split]].
  - intros Hin. exact (proj1 (Hno _ Hin) eq_refl).
  - intros Hin. exact (proj2 (Hno _ Hin) eq_refl).
  - intros e E. subst r.
    destruct (run_cases fs0 d ls Hl)
      as [[_ [e' H]] | [_ [H | (P1 & b & f & P2 & e' & _ & H)]]];
      rewrite H in Hr; inversion Hr.
  - intros -> f Hin Hfi Hs. subst B.
    destruct (run_cases fs0 d ls Hl)
      as [[_ [e H]] | [Hd [H | (P1 & b & f' & P2 & e & HP & H)]]];
      rewrite H in Hr; inversion Hr; subst; clear Hr.
    assert (Hbf : In (stem f, f) (pairs_of fs0 d ls)) by (apply in_pairs_of; auto).
    split; [|split].
    + now apply (moved_fs_src _ _ _ (stem f)).
    + rewrite moved_fs_frame.
      * unfold fs2_of. now apply created_some.
      * intros b' f' Hin'. split; [|apply child_neq_real].
        intros E. apply (pairs_of_file _ _ _ _ _ Hl) in Hin'. congruence.
    + destruct (moved_fs_target (fs2_of fs0 d ls) d _ _ _ Hbf)
        as [[_ Ht] | [_ [Ht1 Ht2]]]; auto.
Qed.

Lemma c6_witness :
  ex_fs ["b"] = Some Dir /\
  fst (run ex_ls [] ex_fs) = inl tt /\
  fs (snd (run ex_ls [] ex_fs)) ["b.log"] = None /\
  fs (snd (run ex_ls [] ex_fs)) ["b"] = Some Dir.
Proof.
  assert (Hl : listing_ok ex_fs [] ex_ls)
    by (apply listing_okb_sound; vm_compute; reflexivity).
  assert (Hr : fst (run ex_ls [] ex_fs) = inl tt) by reflexivity.
  destruct (c6_existing_folder_reused ex_fs [] ex_ls "b" (fst (run ex_ls [] ex_fs))
              (fs (snd (run ex_ls [] ex_fs))) (log (snd (run ex_ls [] ex_fs)))
              Hl eq_refl eq_refl) as (_ & _ & _ & H4).
  destruct (H4 Hr "b.log") as (Hs & Hb & _).
  - simpl. repeat (first [now left | right]).
  - reflexivity.
  - reflexivity.
  - split; [reflexivity | split; [exact Hr | split; [exact Hs | exact Hb]]].
Defined.

(** C8.  A fault ends the run at once: the call that raised is the last
    event of the log, and every folder whose creation was printed is a
    directory and every move that was printed is in effect in the state the
    run leaves. *)
Theorem c8_fault_stops_run fs0 d ls c e fs' l :
  listing_ok fs0 d ls -> run ls d fs0 = (inr (Fault c e), mkSt fs' l) ->
  (exists L, l = L ++ [Call c]) /\
  (forall p, In (Print (Created p)) l -> fs' p = Some Dir) /\
  (forall s t, In (Print (Moved s t)) l ->
     fs' s = None /\
     (fs' t = Some File \/ (fs' t = Some Dir /\ fs' (t ++ [basename s]) = Some File))).
Proof.
  intros Hl Hr.
  destruct (run_cases fs0 d ls Hl)
    as [[_ [e' H]] | [Hd [H | (P1 & b & f & P2 & e' & HP & H)]]];
    rewrite H in Hr; inversion Hr; subst; clear Hr.
  - split; [now exists [] |].
    split; [intros p [E|[]]; discriminate | intros s t [E|[]]; discriminate].
  - assert (Hsub : forall b' f', In (b', f') P1 -> In (b', f') (pairs_of fs0 d ls))
      by (intros; rewrite HP; apply in_or_app; now left).
    split; [|split].
    + exists (log2_of fs0 d ls ++ mlog d P1). now rewrite app_assoc.
    + intros p [E | Hin]; [discriminate|]. rewrite !in_app_iff in Hin.
      destruct Hin as [Hin | [Hin | [E|[]]]]; try discriminate.
      * apply in_elog in Hin as (b' & Hb' & Hn & [E|E]); inversion E; subst.
        rewrite moved_fs_frame.
        -- unfold fs2_of. now apply created_key.
        -- intros b'' f'' Hin. split; [|apply child_neq_real].
           intros E'. apply Hsub, (pairs_of_file _ _ _ _ _ Hl) in Hin. congruence.
      * apply in_mlog in Hin as (b' & f' & _ & [E|E]); discriminate.
    + intros s t [E | Hin]; [discriminate|]. rewrite !in_app_iff in Hin.
      destruct Hin as [Hin | [Hin | [E|[]]]]; try discriminate.
      * apply in_elog in Hin as (b' & _ & _ & [E|E]); discriminate.
      * apply in_mlog in Hin as (b' & f' & Hbf & [E|E]); inversion E; subst.
        split; [now apply (moved_fs_src _ _ _ b')|].
        rewrite basename_child, <- app_assoc. simpl.
        destruct (moved_fs_target (fs2_of fs0 d ls) d _ _ _ Hbf)
          as [[_ Ht] | [_ [Ht1 Ht2]]]; auto.
Qed.

Lemma c8_witness :
  fst (run fault_ls [] fault_fs) = inr (Fault (CMove ["README"] ["README"; "README"]) ENOTDIR) /\
  fs (snd (run fault_ls [] fault_fs)) ["a"] = Some Dir /\
  fs (snd (run fault_ls [] fault_fs)) ["a.txt"] = None.
Proof.
  assert (Hl : listing_ok fault_fs [] fault_ls)
    by (apply listing_okb_sound; vm_compute; reflexivity).
  destruct (c8_fault_stops_run fault_fs [] fault_ls (CMove ["README"] ["README"; "README"])
              ENOTDIR (fs (snd (run fault_ls [] fault_fs))) (log (snd (run fault_ls [] fault_fs)))
              Hl eq_refl) as (_ & H2 & H3).
  split; [reflexivity | split].
  - apply H2. vm_compute. repeat (first [now left | right]).
  - apply (H3 ["a.txt"] ["a"; "a.txt"]). vm_compute. repeat (first [now left | right]).
Defined.

(** C3.  The directory of [a.txt], [a.csv], [b.log] and a folder [existing],
    listed in any order: the run succeeds; [a] holds exactly [a.txt] and
    [a.csv], [b] exactly [b.log]; [existing] and everything below it are as
    they were; the top level holds exactly [a], [b] and [existing], and no
    regular file. *)
Theorem c3_end_to_end ls sub :
  Permutation (ls []) c3_names ->
  exists fs' l,
    run ls [] (c3_fs sub) = (inl tt, mkSt fs' l) /\
    fs' ["a"] = Some Dir /\ fs' ["b"] = Some Dir /\
    (forall x, fs' ["a"; x] =
       if (String.eqb x "a.txt" || String.eqb x "a.csv")%bool then Some File else None) /\
    (forall x, fs' ["b"; x] = if String.eqb x "b.log" then Some File else None) /\
    (forall q, fs' ("existing" :: q) = c3_fs sub ("existing" :: q)) /\
    (forall x, fs' [x] <> None <-> x = "a" \/ x = "b" \/ x = "existing") /\
    (forall x, fs' [x] <> Some File).
Proof.
  intros Hp. eexists (c3_after sub), _. split; [now apply c3_run|].
  split; [reflexivity|]. split; [reflexivity|].
  split; [|split; [|split; [|split]]].
  - intros x. c3_eval. str_cases x; reflexivity.
  - intros x. c3_eval. str_cases x; reflexivity.
  - intros [|y q]; [reflexivity|]. c3_eval. destruct (sub (y :: q)); reflexivity.
  - intros x. c3_eval. str_cases x; cbn; intuition congruence.
  - intros x. c3_eval. str_cases x; cbn; congruence.
Qed.

Lemma c3_witness :
  exists fs' l,
    run (fun _ => c3_names) [] (c3_fs (fun q => if path_eqb q ["notes.txt"] then Some File else None)) =
      (inl tt, mkSt fs' l) /\
    fs' ["a"; "a.txt"] = Some File /\ fs' ["existing"; "notes.txt"] = Some File.
Proof.
  destruct (c3_end_to_end (fun _ => c3_names)
              (fun q => if path_eqb q ["notes.txt"] then Some File else None)
              (Permutation_refl _))
    as (fs' & l & H & _ & _ & Ha & _ & He & _).
  exists fs', l. split; [exact H|]. split.
  - rewrite Ha. reflexivity.
  - rewrite He. reflexivity.
Defined.

(** * Further properties *)

(** ** os.path.splitext *)

Lemma string_app_nil_r s : (s ++ "")%string = s.
Proof. induction s as [|a s IH]; simpl; auto. now rewrite IH. Qed.

Lemma substring_full s : substring 0 (String.length s) s = s.
Proof. induction s as [|a s IH]; simpl; auto. now rewrite IH. Qed.

Lemma substring_split s n :
  n <= String.length s ->
  (substring 0 n s ++ substring n (String.length s - n) s)%string = s.
Proof.
  revert n; induction s as [|a s IH]; intros [|n] H; simpl in *; auto; try lia.
  - now rewrite substring_full.
  - rewrite IH by lia. reflexivity.
Qed.

Lemma contains_app c s1 s2 :
  contains c (s1 ++ s2)%string = contains c s1 || contains c s2.
Proof. induction s1 as [|a s1 IH]; simpl; auto. now rewrite IH, orb_assoc. Qed.

Lemma string_app_split t1 x s1 y :
  (t1 ++ x)%string = (s1 ++ y)%string -> String.length t1 <= String.length s1 ->
  exists u, s1 = (t1 ++ u)%string /\ x = (u ++ y)%string.
Proof.
  revert s1; induction t1 as [|a t1 IH]; intros s1 E H; simpl in *.
  - now exists s1.
  - destruct s1 as [|b s1]; simpl in *; [lia|].
    inversion E; subst. destruct (IH s1) as [u [-> ->]]; auto; [lia|].
    now exists u.
Qed.

(** str.rfind: either [c] does not occur, or the result is the index of
    its last occurrence. *)
Lemma rfind_from_cases c s i found :
  (contains c s = false /\ rfind_from c s i found = found) \/
  (exists s1 s2, s = (s1 ++ String c s2)%string /\ contains c s2 = false /\
     rfind_from c s i found = Z.of_nat (i + String.length s1)).
Proof.
  revert i found; induction s as [|a s IH]; intros i found; simpl; auto.
  destruct (IH (S i) (if Ascii.eqb a c then Z.of_nat i else found))
    as [[Hn Hr] | (s1 & s2 & -> & Hn & Hr)].
  - rewrite Hr. destruct (Ascii.eqb_spec a c) as [->|Hac].
    + right. exists "", s. simpl. rewrite Nat.add_0_r.
      repeat split; auto.
    + left. simpl. rewrite Hn. auto.
  - right. exists (String a s1), s2. rewrite Hr. simpl.
    repeat split; auto. f_equal. lia.
Qed.

Lemma rfind_from_ge c s i found : (found <= rfind_from c s i found)%Z \/
  (0 <= rfind_from c s i found)%Z.
Proof.
  destruct (rfind_from_cases c s i found) as [[_ ->] | (s1 & s2 & _ & _ & ->)];
    [left | right]; lia.
Qed.

(** The two outcomes of splitext: no extension, or a split at the last dot
    into a non-empty root and an extension with no further dot and no '/'. *)
Lemma splitext_cases p :
  splitext p = (p, "") \/
  exists s1 s2, p = (s1 ++ String "." s2)%string /\ s1 <> "" /\
    contains extsep s2 = false /\ contains sep s2 = false /\
    splitext p = (s1, String "." s2).
Proof.
  unfold splitext, rfind.
  destruct (rfind_from_cases extsep p 0 (-1)) as [[Hn Hd] | (s1 & s2 & Hp & Hn & Hd)].
  - left. rewrite Hd.
    destruct (rfind_from_ge sep p 0 (-1)); rewrite (proj2 (Z.ltb_ge _ _)); auto; lia.
  - rewrite Hd. simpl Nat.add. rewrite Nat2Z.id.
    destruct (Z.ltb_spec (rfind_from sep p 0 (-1)) (Z.of_nat (String.length s1)))
      as [Hlt|]; [|now left].
    destruct (leading_dots_end p (Z.to_nat (rfind_from sep p 0 (-1) + 1))
                (String.length s1 - Z.to_nat (rfind_from sep p 0 (-1) + 1))) eqn:Hl;
      [|now left].
    right. exists s1, s2.
    assert (Hs1 : s1 <> "").
    { intros ->. simpl in Hl. discriminate. }
    assert (Hsep : contains sep s2 = false).
    { destruct (rfind_from_cases sep p 0 (-1)) as [[Hs _] | (t1 & t2 & Ht & Hs & Hr)].
      - rewrite Hp, contains_app in Hs. apply orb_false_iff in Hs as [_ Hs].
        simpl in Hs. exact Hs.
      - rewrite Hr in Hlt. simpl in Hlt.
        rewrite Ht in Hp.
        destruct (string_app_split t1 _ s1 _ Hp) as [u [Hu Hx]]; [lia|].
        destruct u as [|a u].
        + subst s1. rewrite string_length_app in Hlt. simpl in Hlt. lia.
        + simpl in Hx. inversion Hx; subst.
          rewrite contains_app in Hs. apply orb_false_iff in Hs as [_ Hs].
          simpl in Hs. exact Hs. }
    repeat split; auto.
    subst p. f_equal.
    + apply substring_prefix.
    + rewrite string_length_app.
      replace (String.length s1 + String.length (String extsep s2) - String.length s1)
        with (String.length (String extsep s2)) by lia.
      apply substring_suffix.
Qed.

(** X1.  splitext splits, it drops nothing: root and extension concatenate
    back to the name. *)
Theorem x_splitext_root_ext p : (fst (splitext p) ++ snd (splitext p))%string = p.
Proof.
  destruct (splitext_cases p) as [-> | (s1 & s2 & Hp & _ & _ & _ & ->)]; simpl.
  - apply string_app_nil_r.
  - now rewrite Hp.
Qed.

(** X2.  The extension splitext returns is empty, or a dot followed by text
    holding no other dot and no '/'; in the second case the root is not
    empty. *)
Theorem x_splitext_ext_shape p :
  snd (splitext p) = "" \/
  exists e, snd (splitext p) = String "." e /\ contains extsep e = false /\
            contains sep e = false /\ fst (splitext p) <> "".
Proof.
  destruct (splitext_cases p) as [-> | (s1 & s2 & _ & Hs1 & He & Hs & ->)]; simpl.
  - now left.
  - right. now exists s2.
Qed.

(** X3.  No group of Step 1 is keyed by the empty string (which would make
    the target folder the directory itself) as long as the listing holds no
    empty name. *)
Theorem x_keys_nonempty fs0 d items b :
  ~ In "" items -> In b (map fst (fst (scan fs0 d items))) -> b <> "".
Proof.
  intros Hne Hb ->. apply in_scan_keys in Hb as (f & Hin & _ & Hs).
  unfold stem in Hs.
  destruct (splitext_cases f) as [E | (s1 & s2 & _ & Hs1 & _ & _ & E)];
    rewrite E in Hs; simpl in Hs; subst; contradiction.
Qed.

Lemma x_keys_nonempty_witness :
  ~ In "" ["a.txt"; ".x"; "b"] /\
  forall b, In b (map fst (fst (scan (fun _ => Some File) [] ["a.txt"; ".x"; "b"]))) ->
            b <> "".
Proof.
  assert (H : ~ In "" ["a.txt"; ".x"; "b"]) by (simpl; intuition discriminate).
  split; [exact H|]. intros b. apply (x_keys_nonempty _ _ _ b H).
Defined.

(** ** shutil.move and os.makedirs *)





(** ** Step 1 *)

(** [file_map[k]] of a defaultdict read without inserting: the list of the
    first entry of key [k], or []. *)
Definition group (fm : file_map_t) (k : string) : list string :=
  match find (fun e => String.eqb (fst e) k) fm with
  | Some (_, fl) => fl
  | None => []
  end.

Lemma group_fm_append k v fm b :
  group (fm_append k v fm) b = if String.eqb k b then group fm b ++ [v] else group fm b.
Proof.
  unfold group. induction fm as [|[k' vs] fm IH]; simpl.
  - now destruct (String.eqb k b).
  - destruct (String.eqb_spec k k') as [<-|Hk]; simpl.
    + now destruct (String.eqb k b).
    + destruct (String.eqb_spec k' b) as [->|]; simpl; auto.
      now apply String.eqb_neq in Hk as ->.
Qed.

Lemma group_scan_fold fs0 d items acc b :
  group (fst (fold_left (scan_item fs0 d) items acc)) b =
  group (fst acc) b ++
  filter (fun f => is_file_item fs0 d f && String.eqb (stem f) b) items.
Proof.
  revert acc; induction items as [|x items IH]; intros [fm fo]; simpl.
  - now rewrite app_nil_r.
  - rewrite IH. unfold is_file_item at 2.
    destruct (startswith_dot x); simpl; [reflexivity|].
    destruct (isdir fs0 (d ++ [x])); simpl; [reflexivity|].
    rewrite group_fm_append. unfold stem.
    destruct (String.eqb (fst (splitext x)) b); simpl; auto.
    now rewrite <- app_assoc.
Qed.

Lemma in_group fm b fl :
  fm_wf fm -> (In (b, fl) fm <-> fl <> [] /\ fl = group fm b).
Proof.
  intros [Hnd Hne]. unfold group. split.
  - intros Hin. split; [exact (Hne b fl Hin)|].
    destruct (find (fun e => String.eqb (fst e) b) fm) as [[b' fl']|] eqn:E.
    + apply find_some in E as [Hin' Eb]. apply String.eqb_eq in Eb. simpl in Eb. subst.
      eapply nodup_fst_unique; eauto.
    + eapply find_none in E; [|exact Hin]. simpl in E.
      now rewrite String.eqb_refl in E.
  - intros [Hfl E].
    destruct (find (fun e => String.eqb (fst e) b) fm) as [[b' fl']|] eqn:F;
      [|congruence].
    apply find_some in F as [Hin Eb]. apply String.eqb_eq in Eb. simpl in Eb.
    now subst.
Qed.

Lemma scan_fold_folders_in fs0 d items acc x :
  In x (snd acc) -> In x (snd (fold_left (scan_item fs0 d) items acc)).
Proof.
  revert acc; induction items as [|y items IH]; intros [fm fo] H; simpl in *; auto.
  apply IH. simpl.
  destruct (startswith_dot y); simpl; auto.
  destruct (isdir fs0 (d ++ [y])); simpl; auto.
  unfold set_add. destruct (existsb _ fo); auto. apply in_or_app. now left.
Qed.

Lemma scan_fold_folders_nodup fs0 d items acc :
  NoDup (snd acc) -> NoDup (snd (fold_left (scan_item fs0 d) items acc)).
Proof.
  revert acc; induction items as [|y items IH]; intros [fm fo] H; simpl in *; auto.
  apply IH. simpl.
  destruct (startswith_dot y); simpl; auto.
  destruct (isdir fs0 (d ++ [y])); simpl; auto.
  unfold set_add. destruct (existsb (String.eqb y) fo) eqn:E; auto.
  apply NoDup_app; auto.
  - constructor; [intros []|constructor].
  - intros z Hz [->|[]]. assert (existsb (String.eqb z) fo = true); [|congruence].
    apply existsb_exists. exists z. split; auto. apply String.eqb_refl.
Qed.

(** X6.  Step 1 groups the files exactly: a base name [b] is a key of
    [file_map] with list [fl] iff [fl] is non-empty and is the list of the
    listed non-hidden, non-directory entries whose root is [b], in listing
    order. *)
Theorem x_scan_groups fs0 d items b fl :
  In (b, fl) (fst (scan fs0 d items)) <->
  fl <> [] /\
  fl = filter (fun f => is_file_item fs0 d f && String.eqb (stem f) b) items.
Proof.
  rewrite in_group by apply scan_wf.
  unfold scan. rewrite group_scan_fold. reflexivity.
Qed.

(** X7.  The set [folders] of Step 1 holds exactly the listed non-hidden
    entries that are directories, each once. *)
Theorem x_scan_folders fs0 d items :
  NoDup (snd (scan fs0 d items)) /\
  forall x, In x (snd (scan fs0 d items)) <->
    In x items /\ startswith_dot x = false /\ isdir fs0 (d ++ [x]) = true.
Proof.
  split.
  - apply scan_fold_folders_nodup. constructor.
  - intros x. split; [apply scan_folders|].
    intros (Hin & Hh & Hd). unfold scan.
    apply in_split in Hin as (l1 & l2 & ->).
    rewrite fold_left_app. simpl.
    destruct (fold_left (scan_item fs0 d) l1 ([], [])) as [fm fo].
    apply scan_fold_folders_in. simpl. rewrite Hh, Hd. simpl.
    unfold set_add. destruct (existsb (String.eqb x) fo) eqn:E.
    + apply existsb_exists in E as [y [Hy Ey]]. apply String.eqb_eq in Ey. now subst.
    + apply in_or_app. right. now left.
Qed.

(** ** Step 2 *)



(** ** The run: edge cases and faults *)


(** X10.  A directory whose listing holds no visible regular file (for
    instance an empty one, or one of hidden entries and folders only): the
    run lists it, succeeds, and does nothing else. *)
Theorem x_run_nothing_to_do ls d fs0 :
  lookup fs0 d = Some Dir ->
  (forall x, In x (ls d) -> is_file_item fs0 d x = false) ->
  run ls d fs0 = (inl tt, mkSt fs0 [Call (CListdir d)]).
Proof.
  intros Hd Hx. rewrite run_unfold, Hd.
  assert (Hfm : fm_of fs0 d ls = []) by (now apply scan_no_files).
  rewrite Hfm. reflexivity.
Qed.

Lemma x_run_nothing_to_do_witness :
  run (fun _ => [".git"; "b"]) [] ex_fs = (inl tt, mkSt ex_fs [Call (CListdir [])]).
Proof.
  apply x_run_nothing_to_do.
  - reflexivity.
  - intros x Hx. simpl in Hx.
    destruct Hx as [<-|[<-|[]]]; vm_compute; reflexivity.
Defined.



(** ** The run: what it changes *)

(** X12.  After a run that succeeds, every listed visible regular file [f]
    has left [directory] and is [directory/stem(f)/f], or is inside it when
    that was a directory. *)
Theorem x_run_files_placed fs0 d ls fs' l :
  listing_ok fs0 d ls -> run ls d fs0 = (inl tt, mkSt fs' l) ->
  forall f, In f (ls d) -> is_file_item fs0 d f = true ->
    fs' (d ++ [f]) = None /\
    (fs' (d ++ [stem f; f]) = Some File \/
     (fs' (d ++ [stem f; f]) = Some Dir /\ fs' (d ++ [stem f; f; f]) = Some File)).
Proof.
  intros Hl Hr f Hin Hfi.
  destruct (run_cases fs0 d ls Hl)
    as [[_ [e H]] | [Hd [H | (P1 & b & f' & P2 & e & HP & H)]]];
    rewrite H in Hr; inversion Hr; subst; clear Hr.
  assert (Hbf : In (stem f, f) (pairs_of fs0 d ls)) by (apply in_pairs_of; auto).
  split; [now apply (moved_fs_src _ _ _ (stem f))|].
  destruct (moved_fs_target (fs2_of fs0 d ls) d _ _ _ Hbf)
    as [[_ Ht] | [_ [Ht1 Ht2]]]; auto.
Qed.

Lemma x_run_files_placed_witness :
  fs (snd (run ex_ls [] ex_fs)) ["a.csv"] = None /\
  fs (snd (run ex_ls [] ex_fs)) ["a"; "a.csv"] = Some File.
Proof.
  destruct (x_run_files_placed ex_fs [] ex_ls (fs (snd (run ex_ls [] ex_fs)))
              (log (snd (run ex_ls [] ex_fs)))
              ltac:(apply listing_okb_sound; vm_compute; reflexivity)
              ltac:(vm_compute; reflexivity) "a.csv"
              ltac:(simpl; repeat (first [now left | right]))
              ltac:(vm_compute; reflexivity)) as [H1 [H2 | [H2 _]]].
  - split; [exact H1 | exact H2].
  - vm_compute in H2. discriminate.
Defined.

(** X13.  After a run that succeeds, no visible regular file is left at the
    top of [directory]. *)
Theorem x_run_no_loose_files fs0 d ls fs' l :
  listing_ok fs0 d ls -> run ls d fs0 = (inl tt, mkSt fs' l) ->
  forall x, startswith_dot x = false -> fs' (d ++ [x]) <> Some File.
Proof.
  intros Hl Hr x Hx.
  destruct (run_cases fs0 d ls Hl)
    as [[_ [e H]] | [Hd [H | (P1 & b & f' & P2 & e & HP & H)]]];
    rewrite H in Hr; inversion Hr; subst; clear Hr.
  destruct (in_dec string_dec x (map snd (pairs_of fs0 d ls))) as [Hin | Hnin].
  - apply in_map_iff in Hin as [[b f] [Ef Hbf]]. simpl in Ef. subst f.
    rewrite (moved_fs_src _ _ _ _ _ Hbf). discriminate.
  - rewrite moved_fs_frame.
    2: { intros b f Hbf; split; [|apply child_neq_real].
         intros E; apply app_cons_inj in E as [E _]; subst.
         apply Hnin; apply in_map_iff; now exists (b, f). }
    unfold fs2_of, created.
    destruct (fs0 (d ++ [x])) as [[|]|] eqn:E0.
    + exfalso. apply Hnin. apply in_map_iff. exists (stem x, x). split; auto.
      apply in_pairs_of. split; [apply Hl; congruence|split; auto].
      unfold is_file_item, isdir. now rewrite lookup_child, E0, Hx.
    + discriminate.
    + destruct (existsb _ _); discriminate.
Qed.

Lemma x_run_no_loose_files_witness :
  fs (snd (run ex_ls [] ex_fs)) ["b.log"] <> Some File.
Proof.
  apply (x_run_no_loose_files ex_fs [] ex_ls (fs (snd (run ex_ls [] ex_fs)))
           (log (snd (run ex_ls [] ex_fs)))).
  - apply listing_okb_sound. vm_compute. reflexivity.
  - vm_compute. reflexivity.
  - reflexivity.
Defined.

(** X14.  However a run ends, it changes nothing outside [directory], leaves
    [directory] itself as it was, and the only entries it removes are listed
    visible regular files [directory/f]. *)
Theorem x_run_frame fs0 d ls r fs' l :
  listing_ok fs0 d ls -> run ls d fs0 = (r, mkSt fs' l) ->
  (forall p, under d p = false -> fs' p = fs0 p) /\
  fs' d = fs0 d /\
  (forall p, fs0 p <> None -> fs' p = None ->
     exists f, p = d ++ [f] /\ In f (ls d) /\ is_file_item fs0 d f = true).
Proof.
  intros Hl Hr.
  destruct (run_outcome _ _ _ _ _ _ Hl Hr)
    as [[-> _] | [_ (P1 & P2 & tl & HP & -> & _ & _)]].
  { split; [auto | split; [auto | congruence]]. }
  assert (Hsub : forall b f, In (b, f) P1 -> In (b, f) (pairs_of fs0 d ls))
    by (intros b f Hin; rewrite HP; apply in_or_app; now left).
  assert (Hfr : forall p, (forall x q, p <> d ++ x :: q) ->
            moved_fs (fs2_of fs0 d ls) d P1 p = fs0 p).
  { intros p Hp. rewrite moved_fs_frame.
    - unfold fs2_of. apply created_frame. intros b _. apply Hp.
    - intros b f _. split; [apply Hp|].
      destruct (real_dst_cases (fs2_of fs0 d ls) d b f) as [-> | ->]; apply Hp. }
  split; [|split].
  - intros p Hp. apply Hfr. intros x q ->. now rewrite under_self_app in Hp.
  - apply Hfr. apply app_cons_neq.
  - intros p Hp. unfold moved_fs.
    destruct (existsb (fun '(b, f) => path_eqb p (d ++ [f])) P1) eqn:E1.
    + intros _. apply existsb_exists in E1 as [[b f] [Hbf Ep]]. simpl in Ep.
      apply path_eqb_eq in Ep.
      apply Hsub, in_pairs_of in Hbf as (Hin & Hfi & _). eauto.
    + destruct (existsb (fun '(b, f) => path_eqb p (real_dst (fs2_of fs0 d ls) d b f)) P1);
        intros H; [discriminate H|].
      unfold fs2_of, created in H. destruct (fs0 p); [discriminate H | congruence].
Qed.

Lemma x_run_frame_witness :
  fs (snd (run ls_photos ["photos"] fs_photos)) ["photos"] = Some Dir /\
  fs (snd (run ls_photos ["photos"] fs_photos)) ["photos"; "x.txt"] = None.
Proof.
  destruct (x_run_frame fs_photos ["photos"] ls_photos (fst (run ls_photos ["photos"] fs_photos))
              (fs (snd (run ls_photos ["photos"] fs_photos)))
              (log (snd (run ls_photos ["photos"] fs_photos)))
              ltac:(apply listing_okb_sound; vm_compute; reflexivity)
              ltac:(vm_compute; reflexivity)) as (_ & H2 & _).
  split; [rewrite H2; reflexivity | vm_compute; reflexivity].
Defined.

(** The shutil.move calls of a log, in order: (source, destination). *)
Definition moves (l : list event) : list (path * path) :=
  flat_map (fun ev => match ev with
                      | Call (CMove s t) => [(s, t)]
                      | _ => []
                      end) l.

Lemma moves_app l1 l2 : moves (l1 ++ l2) = moves l1 ++ moves l2.
Proof. unfold moves. apply flat_map_app. Qed.

Lemma moves_listdir d l : moves (Call (CListdir d) :: l) = moves l.
Proof. reflexivity. Qed.

Lemma moves_elog fs0 d K : moves (elog fs0 d K) = [].
Proof.
  induction K as [|b K IH]; simpl; auto.
  unfold moves in *. rewrite flat_map_app, IH.
  destruct (path_exists fs0 (d ++ [b])); reflexivity.
Qed.

Lemma moves_mlog d P :
  moves (mlog d P) = map (fun '(b, f) => (d ++ [f], d ++ [b; f])) P.
Proof.
  induction P as [|[b f] P IH]; simpl; auto.
  unfold moves in *. now rewrite IH.
Qed.

Lemma app_cons_assoc {A} (l1 l2 : list A) x : l1 ++ x :: l2 = (l1 ++ [x]) ++ l2.
Proof. now rewrite <- app_assoc. Qed.

Lemma nodup_map_child (d : path) (fl : list string) :
  NoDup fl -> NoDup (map (fun f => d ++ [f]) fl).
Proof.
  induction 1 as [|x fl Hx _ IH]; simpl; constructor; auto.
  intros Hin. apply in_map_iff in Hin as [y [E Hy]].
  apply app_cons_inj in E as [-> _]. contradiction.
Qed.

(** X15.  However a run ends, the shutil.move calls it makes move listed
    visible regular files [directory/f] to [directory/stem(f)/f], each file
    at most once; after a run that succeeds, each such file has been moved
    exactly once. *)
Theorem x_run_moves fs0 d ls r fs' l :
  listing_ok fs0 d ls -> run ls d fs0 = (r, mkSt fs' l) ->
  NoDup (map fst (moves l)) /\
  (forall s t, In (s, t) (moves l) ->
     exists f, s = d ++ [f] /\ t = d ++ [stem f; f] /\
               In f (ls d) /\ is_file_item fs0 d f = true) /\
  (r = inl tt ->
   Permutation (map fst (moves l))
               (map (fun f => d ++ [f]) (filter (is_file_item fs0 d) (ls d)))).
Proof.
  intros Hl Hr.
  assert (Hmk : forall Q, map fst (map (fun '(b, f) => (d ++ [f], d ++ [b; f])) Q) =
                          map (fun f => d ++ [f]) (map snd Q))
    by (intros Q; rewrite !map_map; apply map_ext; now intros [b f]).
  assert (Hnd := pairs_of_nodup _ _ _ Hl).
  assert (Hmv : forall Q, (forall x, In x Q -> In x (pairs_of fs0 d ls)) ->
            forall s t, In (s, t) (map (fun '(b, f) => (d ++ [f], d ++ [b; f])) Q) ->
            exists f, s = d ++ [f] /\ t = d ++ [stem f; f] /\
                      In f (ls d) /\ is_file_item fs0 d f = true).
  { intros Q HQ s t H. apply in_map_iff in H as [[b f] [E Hin]]. inversion E; subst.
    apply HQ, in_pairs_of in Hin as (Hin & Hfi & ->). eauto 6. }
  destruct (run_cases fs0 d ls Hl)
    as [[Hd [e H]] | [Hd [H | (P1 & b & f & P2 & e & HP & H)]]];
    rewrite H in Hr; inversion Hr; subst; clear Hr.
  - split; [constructor|]. split; [intros s t []|discriminate].
  - rewrite moves_listdir, !moves_app, moves_elog, moves_mlog. simpl.
    split; [|split].
    + rewrite Hmk. now apply nodup_map_child.
    + apply Hmv. auto.
    + intros _. rewrite Hmk. apply Permutation_map.
      unfold pairs_of, fm_of. rewrite scan_pairs, map_map. simpl. now rewrite map_id.
  - rewrite moves_listdir, !moves_app, moves_elog, moves_mlog, app_nil_l.
    replace (moves [Call (CMove (d ++ [f]) (d ++ [b; f]))])
      with (map (fun '(b, f) => (d ++ [f], d ++ [b; f])) [(b, f)]) by reflexivity.
    rewrite <- map_app.
    assert (HQ : forall x, In x (P1 ++ [(b, f)]) -> In x (pairs_of fs0 d ls))
      by (intros x Hx; rewrite HP, app_cons_assoc; apply in_or_app; now left).
    split; [|split].
    + rewrite Hmk. apply nodup_map_child.
      rewrite HP, app_cons_assoc in Hnd. now apply nodup_snd_prefix in Hnd.
    + now apply Hmv.
    + discriminate.
Qed.

Lemma x_run_moves_witness :
  Permutation (map fst (moves (log (snd (run ex_ls [] ex_fs)))))
              [["a.txt"]; ["b.log"]; ["a.csv"]].
Proof.
  destruct (x_run_moves ex_fs [] ex_ls (fst (run ex_ls [] ex_fs))
              (fs (snd (run ex_ls [] ex_fs))) (log (snd (run ex_ls [] ex_fs)))
              ltac:(apply listing_okb_sound; vm_compute; reflexivity)
              ltac:(vm_compute; reflexivity)) as (_ & _ & H3).
  apply H3. vm_compute. reflexivity.
Defined.

(** X16.  However a run ends, its log is the listing of [directory], then
    the makedirs calls and Created prints of Step 2, then the shutil.move
    calls and Moved prints of Step 3: no file is moved before Step 2 is
    over. *)
Theorem x_run_log_order fs0 d ls r fs' l :
  listing_ok fs0 d ls -> run ls d fs0 = (r, mkSt fs' l) ->
  exists L1 L2, l = Call (CListdir d) :: L1 ++ L2 /\
    (forall ev, In ev L1 -> exists p, ev = Call (CMakedirs p) \/ ev = Print (Created p)) /\
    (forall ev, In ev L2 -> exists s t, ev = Call (CMove s t) \/ ev = Print (Moved s t)).
Proof.
  intros Hl Hr.
  destruct (run_outcome _ _ _ _ _ _ Hl Hr)
    as [[_ ->] | [_ (P1 & P2 & tl & HP & _ & -> & Htl)]].
  - exists [], []. split; [reflexivity | split; intros ev []].
  - exists (elog fs0 d (map fst (fm_of fs0 d ls))), (mlog d P1 ++ tl).
    split; [reflexivity|split].
    + intros ev Hin. apply in_elog in Hin as (b & _ & _ & Hev). eauto.
    + intros ev Hin. apply in_app_or in Hin as [Hin | Hin].
      * apply in_mlog in Hin as (b & f & _ & Hev). eauto.
      * destruct Htl as [-> | (b & f & _ & ->)]; [destruct Hin|].
        destruct Hin as [<-|[]]. eauto.
Qed.

Lemma x_run_log_order_witness :
  exists L1 L2, log (snd (run fault_ls [] fault_fs)) = Call (CListdir []) :: L1 ++ L2 /\
    (forall ev, In ev L1 -> exists p, ev = Call (CMakedirs p) \/ ev = Print (Created p)).
Proof.
  destruct (x_run_log_order fault_fs [] fault_ls (fst (run fault_ls [] fault_fs))
              (fs (snd (run fault_ls [] fault_fs))) (log (snd (run fault_ls [] fault_fs)))
              ltac:(apply listing_okb_sound; vm_compute; reflexivity)
              ltac:(vm_compute; reflexivity)) as (L1 & L2 & H1 & H2 & _).
  exists L1, L2. split; [exact H1 | exact H2].
Defined.

(** ** The run: a folder name taken by a regular file *)

(** In a move loop that succeeds, every move found [directory/b/f] a
    directory or [directory/b] a directory. *)
Lemma move_pairs_inl_steps fs2 d P mv l st :
  NoDup (map snd (mv ++ P)) ->
  (forall b f, In (b, f) P -> fs2 (d ++ [f]) = Some File) ->
  move_pairs d P (mkSt (moved_fs fs2 d mv) l) = (inl tt, st) ->
  forall P1 b f P2, P = P1 ++ (b, f) :: P2 ->
    isdir fs2 (d ++ [b; f]) = true \/
    lookup (moved_fs fs2 d (mv ++ P1)) (d ++ [b]) = Some Dir.
Proof.
  revert mv l; induction P as [|[b0 f0] P IH]; intros mv l Hnd Hfile Hok P1 b f P2 HP.
  - destruct P1; discriminate.
  - assert (Hn := nodup_snd_head _ _ _ _ Hnd).
    assert (Hf : fs2 (d ++ [f0]) = Some File) by (apply (Hfile b0); now left).
    simpl move_pairs in Hok. unfold shutil_move_m, bind at 1, syscall at 1 in Hok.
    cbn [fs log] in Hok.
    destruct (shutil_move_step_cases fs2 d mv b0 f0 Hn Hf) as [Hm | [e He]].
    2: { rewrite He in Hok. discriminate Hok. }
    rewrite Hm in Hok. unfold bind at 1, print in Hok. cbn [fs log] in Hok.
    destruct P1 as [|[b1 f1] P1].
    + inversion HP; subst. rewrite app_nil_r.
      rewrite shutil_move_step in Hm by auto.
      destruct (isdir fs2 (d ++ [b; f])); [now left | right].
      destruct (lookup (moved_fs fs2 d mv) (d ++ [b])) as [[|]|]; congruence.
    + inversion HP; subst.
      replace (mv ++ (b1, f1) :: P1) with ((mv ++ [(b1, f1)]) ++ P1)
        by now rewrite <- app_assoc.
      eapply IH; [| | exact Hok | reflexivity].
      * now rewrite <- app_assoc.
      * intros b' f' Hin. apply (Hfile b'). now right.
Qed.

Lemma moved_fs_not_dir fs2 d mv p :
  fs2 p <> Some Dir -> (forall b f, In (b, f) mv -> p <> real_dst fs2 d b f) ->
  moved_fs fs2 d mv p <> Some Dir.
Proof.
  intros H Hr. unfold moved_fs.
  destruct (existsb (fun '(b, f) => path_eqb p (d ++ [f])) mv); [discriminate|].
  rewrite existsb_none; auto.
  intros [b f] Hin. apply path_eqb_neq. now apply Hr.
Qed.

(** X17.  If the root [stem(f)] of a listed visible regular file [f] is the
    name of a regular file of [directory] (such as a file [README] without
    extension, or a file [a] next to [a.txt]), the run does not succeed:
    Step 2 creates no folder there, and the shutil.move of [f] raises. *)
Theorem x_run_key_is_file fs0 d ls f r fs' l :
  listing_ok fs0 d ls -> In f (ls d) -> is_file_item fs0 d f = true ->
  fs0 (d ++ [stem f]) = Some File ->
  fs0 (d ++ [stem f; f]) <> Some Dir ->
  run ls d fs0 = (r, mkSt fs' l) -> r <> inl tt.
Proof.
  intros Hl Hin Hfi Hb Hbf Hr ->.
  destruct (run_cases fs0 d ls Hl)
    as [[_ [e H]] | [Hd [H | (P1 & b & f' & P2 & e & HP & H)]]];
    rewrite H in Hr; inversion Hr; subst; clear Hr.
  assert (Hp : In (stem f, f) (pairs_of fs0 d ls)) by (apply in_pairs_of; auto).
  apply in_split in Hp as (P1 & P2 & HP).
  rewrite run_dir in H by exact Hd.
  destruct (move_pairs_inl_steps (fs2_of fs0 d ls) d (pairs_of fs0 d ls) [] _ _
              (pairs_of_nodup _ _ _ Hl)
              (fun b f Hin => fs2_of_file _ _ _ _ _ Hl Hin) H P1 (stem f) f P2 HP)
    as [Hdir | Hdir].
  - unfold isdir in Hdir. rewrite lookup_child in Hdir.
    unfold fs2_of, created in Hdir.
    destruct (fs0 (d ++ [stem f; f])) as [[|]|] eqn:E; try congruence.
    destruct (existsb _ _) eqn:E2; [|discriminate].
    apply existsb_exists in E2 as [b [_ Eb]]. apply path_eqb_eq in Eb.
    apply app_cons_inj in Eb as [_ Eb]. discriminate.
  - rewrite lookup_child in Hdir. revert Hdir. simpl app.
    apply moved_fs_not_dir.
    + unfold fs2_of. rewrite (created_some _ _ _ _ _ Hb). discriminate.
    + intros b' f'' _. apply child_neq_real.
Qed.

Lemma x_run_key_is_file_witness :
  fst (run ls_readme [] fs_readme) <> inl tt.
Proof.
  apply (x_run_key_is_file fs_readme [] ls_readme "README" (fst (run ls_readme [] fs_readme))
           (fs (snd (run ls_readme [] fs_readme))) (log (snd (run ls_readme [] fs_readme)))).
  - apply listing_okb_sound. vm_compute. reflexivity.
  - now left.
  - vm_compute. reflexivity.
  - vm_compute. reflexivity.
  - vm_compute. discriminate.
  - vm_compute. reflexivity.
Defined.
